(** * Message-bus client core: consumption, acknowledgment, validation
      filters and the dead-letter / replay path.

    The development embeds the two RabbitMQ clients of the repository:

    - the basic client ([src/events.ts], lines 1-92): [connect] with
      [assertExchange], [assertQueue], [publish], [consume], and the
      filters [filterOrAck] and [attemptMessageData];
    - the dead-letter client ([src/encrypt.ts], lines 56-190): the same
      topology functions, an [async] [publish], [consume] whose envelopes
      carry [throwError], [consumeErrors] with [replyData], and the filters
      [assertData] and [filterOrAck].

    The amqplib channel, the JSON codec and the Joi validator are not code
    of the repository.  The channel is modelled by a world that records the
    declared topology and the methods issued on the channels, in order; the
    JSON codec and the validator are section variables.

    Conventions of the model:
    - a channel method takes effect when it is called; [await] on its
      promise only defers the rest of the calling function to a later turn;
    - the broker accepts a declaration that is new or equal to the existing
      one and rejects an unequal one, leaving the topology as it was;
    - [publish] and [ack] are fire-and-forget: they never raise;
    - a subject is represented by the values its producer passes to
      [next]; an operator is a function of one such value. *)

From Stdlib Require Import ZArith Lia Ascii DecimalString.
From stdpp Require Import base option list strings gmap.

Open Scope string_scope.
Set Warnings "-register-all".

(** ** Values *)

(** A structured-data tree, as [JSON.parse] produces it. *)
Inductive json : Type :=
| JNull
| JBool (b : bool)
| JNum (n : Z)
| JStr (s : string)
| JArr (items : list json)
| JObj (members : list (string * json)).

(** A JavaScript [Error]: [err.constructor.name] and [err.message]. *)
Record Error : Type := mkError { constructor_name : string; message_of : string }.

Definition SyntaxError (msg : string) : Error := mkError "SyntaxError" msg.

(** Property read [o.k] on a parsed object; [None] is [undefined]. *)
Fixpoint assoc (k : string) (members : list (string * json)) : option json :=
  match members with
  | [] => None
  | (k', v) :: rest => if String.eqb k k' then Some v else assoc k rest
  end.

(** ** The broker as the channels see it *)

Definition Chan := nat.

(** Methods issued on a channel, as amqplib sends them. *)
Inductive Event : Type :=
| ECreateChannel (ch : Chan)
| EPrefetch (ch : Chan) (count : Z)
| EConsume (ch : Chan) (queue : string)
| EAssertExchange (exchange kind : string) (durable : bool)
| EAssertQueue (queue : string) (durable : bool)
| EBindQueue (queue exchange routingKey : string)
| EPublish (exchange routingKey content : string) (priority : option Z)
| EAck (ch : Chan) (deliveryTag : N).

Record World : Type := mkWorld {
  exchanges : gmap string (string * bool);      (* name -> (type, durable) *)
  queues    : gmap string bool;                 (* name -> durable *)
  bindings  : gset (string * string * string);  (* (queue, exchange, key) *)
  writable  : bool;   (* does the publisher's write buffer have room *)
  next_chan : Chan;   (* channels opened on the connection so far *)
  trace     : list Event
}.

Definition emit (e : Event) (w : World) : World :=
  mkWorld (exchanges w) (queues w) (bindings w) (writable w) (next_chan w)
          (trace w ++ [e]).

Definition set_exchanges (x : gmap string (string * bool)) (w : World) : World :=
  mkWorld x (queues w) (bindings w) (writable w) (next_chan w) (trace w).

Definition set_queues (q : gmap string bool) (w : World) : World :=
  mkWorld (exchanges w) q (bindings w) (writable w) (next_chan w) (trace w).

Definition set_bindings (b : gset (string * string * string)) (w : World) : World :=
  mkWorld (exchanges w) (queues w) b (writable w) (next_chan w) (trace w).

Definition set_next_chan (c : Chan) (w : World) : World :=
  mkWorld (exchanges w) (queues w) (bindings w) (writable w) c (trace w).

(** The broker-visible topology: what assertions can change. *)
Definition topology (w : World)
  : gmap string (string * bool) * gmap string bool * gset (string * string * string) :=
  (exchanges w, queues w, bindings w).

(** ** Synchronous code: state and exceptions *)

Inductive Outcome (A : Type) : Type :=
| Ok (a : A)
| Throw (e : Error).
Arguments Ok {A} a.
Arguments Throw {A} e.

Definition Sync (A : Type) : Type := World -> Outcome A * World.

Definition sret {A} (a : A) : Sync A := fun w => (Ok a, w).

Definition sbind {A B} (m : Sync A) (k : A -> Sync B) : Sync B :=
  fun w => match m w with
           | (Ok a, w') => k a w'
           | (Throw e, w') => (Throw e, w')
           end.

#[global] Instance Sync_ret : MRet Sync := @sret.
#[global] Instance Sync_bind : MBind Sync := fun A B k m => sbind m k.

(** ** The channel methods (amqplib), at the level the clients use them *)

Definition PRECONDITION_FAILED (what : string) : Error :=
  mkError "Error" ("PRECONDITION_FAILED - inequivalent arg for " ++ what).
Definition NOT_FOUND (what : string) : Error :=
  mkError "Error" ("NOT_FOUND - no " ++ what).

(** [channel.assertExchange(exchange, type, {durable})]: declares the
    exchange; re-declaring with the same arguments succeeds and changes
    nothing; re-declaring with other arguments is rejected. *)
Definition ch_assertExchange (exchange kind : string) (durable : bool) : Sync unit :=
  fun w =>
    let w := emit (EAssertExchange exchange kind durable) w in
    match exchanges w !! exchange with
    | None => (Ok tt, set_exchanges (<[exchange := (kind, durable)]> (exchanges w)) w)
    | Some d => if decide (d = (kind, durable)) then (Ok tt, w)
                else (Throw (PRECONDITION_FAILED exchange), w)
    end.

(** [channel.assertQueue(queue, {durable})]. *)
Definition ch_assertQueue (queue : string) (durable : bool) : Sync unit :=
  fun w =>
    let w := emit (EAssertQueue queue durable) w in
    match queues w !! queue with
    | None => (Ok tt, set_queues (<[queue := durable]> (queues w)) w)
    | Some d => if decide (d = durable) then (Ok tt, w)
                else (Throw (PRECONDITION_FAILED queue), w)
    end.

(** [channel.bindQueue(queue, source, pattern)]: both ends must exist. *)
Definition ch_bindQueue (queue exchange routingKey : string) : Sync unit :=
  fun w =>
    let w := emit (EBindQueue queue exchange routingKey) w in
    match queues w !! queue, exchanges w !! exchange with
    | Some _, Some _ =>
        (Ok tt, set_bindings ({[ (queue, exchange, routingKey) ]} ∪ bindings w) w)
    | None, _ => (Throw (NOT_FOUND queue), w)
    | _, None => (Throw (NOT_FOUND exchange), w)
    end.

(** [channel.publish(exchange, routingKey, content, {priority})]: hands the
    message to the write buffer and returns whether the buffer has room. *)
Definition ch_publish (exchange routingKey content : string) (priority : option Z)
  : Sync bool :=
  fun w => (Ok (writable w), emit (EPublish exchange routingKey content priority) w).

(** [channel.ack(message)]. *)
Definition ch_ack (ch : Chan) (deliveryTag : N) : Sync unit :=
  fun w => (Ok tt, emit (EAck ch deliveryTag) w).

(** [connection.createChannel()]. *)
Definition createChannel : Sync Chan :=
  fun w => let ch := next_chan w in
           (Ok ch, set_next_chan (S ch) (emit (ECreateChannel ch) w)).

(** [channel.prefetch(count)]. *)
Definition ch_prefetch (ch : Chan) (count : Z) : Sync unit :=
  fun w => (Ok tt, emit (EPrefetch ch count) w).

(** [channel.consume(queue, onMessage)]: registers the consumer. *)
Definition ch_consume (ch : Chan) (queue : string) : Sync unit :=
  fun w => match queues w !! queue with
           | Some _ => (Ok tt, emit (EConsume ch queue) w)
           | None => (Throw (NOT_FOUND queue), emit (EConsume ch queue) w)
           end.

(** ** Asynchronous code: promises and [await] *)

(** The state of the promise of an [async] function call: settled, or
    suspended at an [await] with the rest of the body to run on a later
    turn of the event loop. *)
Inductive Async (A : Type) : Type :=
| Resolved (a : A)
| Rejected (e : Error)
| Suspended (resume : World -> Async A * World).
Arguments Resolved {A} a.
Arguments Rejected {A} e.
Arguments Suspended {A} resume.

(** Calling an [async] function runs its body up to the first [await]. *)
Definition AsyncFn (A : Type) : Type := World -> Async A * World.

Definition aret {A} (a : A) : AsyncFn A := fun w => (Resolved a, w).

(** A synchronous body with no [await]: an exception rejects the promise. *)
Definition async_of_sync {A} (m : Sync A) : AsyncFn A :=
  fun w => match m w with
           | (Ok a, w') => (Resolved a, w')
           | (Throw e, w') => (Rejected e, w')
           end.

(** [await p; k] once the call that made [p] has run: the rest resumes on
    a later turn, also when [p] is already settled. *)
Fixpoint then_ {A B} (p : Async A) (k : A -> AsyncFn B) : Async B :=
  match p with
  | Resolved a => Suspended (k a)
  | Rejected e => Suspended (fun w => (Rejected e, w))
  | Suspended resume =>
      Suspended (fun w => match resume w with (p', w') => (then_ p' k, w') end)
  end.

(** [const x = await f(...); k x] for an [async] function [f]. *)
Definition await {A B} (f : AsyncFn A) (k : A -> AsyncFn B) : AsyncFn B :=
  fun w => match f w with (p, w') => (then_ p k, w') end.

(** [await ch.method(...)]: the method is issued now, the broker's reply
    settles the promise. *)
Definition await_rpc {A B} (m : Sync A) (k : A -> AsyncFn B) : AsyncFn B :=
  await (async_of_sync m) k.

(** One turn of the event loop for a promise. *)
Definition turn {A} (p : Async A) (w : World) : Async A * World :=
  match p with
  | Suspended resume => resume w
  | _ => (p, w)
  end.

Fixpoint run {A} (fuel : nat) (p : Async A) (w : World) : Async A * World :=
  match fuel with
  | O => (p, w)
  | S n => match turn p w with (p', w') => run n p' w' end
  end.

Definition settled {A} (p : Async A) : bool :=
  match p with Suspended _ => false | _ => true end.

(** Call an [async] function and drive its promise for [fuel] turns. *)
Definition call_and_run {A} (fuel : nat) (f : AsyncFn A) (w : World) : Async A * World :=
  match f w with (p, w') => run fuel p w' end.

(** ** Synchronous code that may leave promises floating *)

(** The world together with the promises that were started and not
    awaited; the event loop settles them on later turns. *)
Record Runtime : Type := mkRuntime {
  world : World;
  floating : list (Async unit)
}.

Definition Js (A : Type) : Type := Runtime -> Outcome A * Runtime.

Definition jret {A} (a : A) : Js A := fun rt => (Ok a, rt).

Definition jbind {A B} (m : Js A) (k : A -> Js B) : Js B :=
  fun rt => match m rt with
            | (Ok a, rt') => k a rt'
            | (Throw e, rt') => (Throw e, rt')
            end.

#[global] Instance Js_ret : MRet Js := @jret.
#[global] Instance Js_bind : MBind Js := fun A B k m => jbind m k.

Notation "'let*' x := m 'in' k" := (jbind m (fun x => k))
  (at level 10, x pattern, m at level 100, k at level 200).

(** A channel method called from synchronous code. *)
Definition perform {A} (m : Sync A) : Js A :=
  fun rt => match m (world rt) with
            | (r, w') => (r, mkRuntime w' (floating rt))
            end.

(** [f(...)] for an [async] function [f], without [await]: the body runs
    up to its first [await] and the promise is dropped by the caller. *)
Definition float (f : AsyncFn unit) : Js unit :=
  fun rt => match f (world rt) with
            | (p, w') => (Ok tt, mkRuntime w' (floating rt ++ [p]))
            end.

(** One turn of the event loop: every floating promise gets its turn, in
    the order the promises were started. *)
Fixpoint turn_all (ps : list (Async unit)) (w : World) : list (Async unit) * World :=
  match ps with
  | [] => ([], w)
  | p :: rest =>
      match turn p w with
      | (p', w') => match turn_all rest w' with (rest', w'') => (p' :: rest', w'') end
      end
  end.

Definition event_loop_turn (rt : Runtime) : Runtime :=
  match turn_all (floating rt) (world rt) with
  | (ps, w) => mkRuntime w ps
  end.

Fixpoint event_loop (turns : nat) (rt : Runtime) : Runtime :=
  match turns with
  | O => rt
  | S n => event_loop n (event_loop_turn rt)
  end.

(** ** RxJS [filter] and [pipe] *)

(** [filter(predicate)]: the predicate sees the value, may change it in
    place, and says whether it stays in the sequence. *)
Definition filter {T} (predicate : T -> Js (bool * T)) : T -> Js (option T) :=
  fun value =>
    let* (keep, value') := predicate value in
    mret (if keep then Some value' else None).

(** [source.pipe(op1, ..., opn)] on one value of the source. *)
Fixpoint pipe {T} (operators : list (T -> Js (option T))) (value : T) : Js (option T) :=
  match operators with
  | [] => mret (Some value)
  | op :: rest =>
      let* r := op value in
      match r with
      | Some value' => pipe rest value'
      | None => mret None
      end
  end.

(** ** Broker deliveries *)

(** An amqplib [ConsumeMessage]: [fields] and [content]. *)
Record Delivery : Type := mkDelivery {
  fields_exchange : string;
  fields_routingKey : string;
  fields_deliveryTag : N;
  content : string
}.

(** What a delivery callback does with one call. *)
Inductive Handled (A : Type) : Type :=
| Emitted (a : A)      (* [message$.next(a)] *)
| Ignored              (* [if (!message) return] *)
| Raised (e : Error)   (* an exception leaves the callback *)
| IllTyped.            (* a cast [as T] does not hold of the body *)
Arguments Emitted {A} a.
Arguments Ignored {A}.
Arguments Raised {A} e.
Arguments IllTyped {A}.

(** Acknowledgments of one delivery among the methods issued. *)
Definition is_ack (ch : Chan) (tag : N) (e : Event) : bool :=
  match e with
  | EAck ch' tag' => Nat.eqb ch ch' && N.eqb tag tag'
  | _ => false
  end.

Definition acks (ch : Chan) (tag : N) (evs : list Event) : nat :=
  length (List.filter (is_ack ch tag) evs).

(** * The basic client ([src/events.ts]) *)

Module Events.
Section Client.
Context (JSON_parse : string -> Outcome json)
        (JSON_stringify : json -> string)
        {Schema : Type}
        (Joi_attempt : Schema -> json -> Outcome json).

(** [SubscriberMessage<T>] *)
Record SubscriberMessage : Type := mkSubscriberMessage {
  exchange : string;
  routingKey : string;
  queue : string;
  sourceData : json;
  data : json;
  ackMessage : Js unit
}.

Definition set_data (v : json) (m : SubscriberMessage) : SubscriberMessage :=
  mkSubscriberMessage (exchange m) (routingKey m) (queue m) (sourceData m) v
                      (ackMessage m).

Definition assertExchange (exchange : string) : AsyncFn unit :=
  await_rpc (ch_assertExchange exchange "topic" true) (fun _ =>
  aret tt).

Definition assertQueue (exchange routingKey queue : string) : AsyncFn unit :=
  await_rpc (ch_assertExchange exchange "topic" true) (fun _ =>
  await_rpc (ch_assertQueue queue true) (fun _ =>
  await_rpc (ch_bindQueue queue exchange routingKey) (fun _ =>
  aret tt))).

(** [connect]: the publisher channel is opened and [onConnected] is
    awaited before the client is returned.  The functions of this section
    are the closures over [publisher]; the client is represented by that
    channel. *)
Definition connect (onConnected : AsyncFn unit) : AsyncFn Chan :=
  await_rpc createChannel (fun publisher =>
  await onConnected (fun _ =>
  aret publisher)).

Definition publish (exchange routingKey : string) (data : json)
           (priority : option Z) : Sync bool :=
  let json := JSON_stringify data in
  let buffer := json in
  ch_publish exchange routingKey buffer priority.

(** The callback [consume] registers on its channel.  [data] starts as
    the same value as [sourceData]. *)
Definition onMessage (queue : string) (listener : Chan)
           (message : option Delivery) : Handled SubscriberMessage :=
  match message with
  | None => Ignored
  | Some message =>
      let exchange := fields_exchange message in
      let routingKey := fields_routingKey message in
      match JSON_parse (content message) with
      | Throw e => Raised e
      | Ok sourceData =>
          let data := sourceData in
          let ackMessage := perform (ch_ack listener (fields_deliveryTag message)) in
          Emitted (mkSubscriberMessage exchange routingKey queue sourceData data
                                       ackMessage)
      end
  end.

(** The anonymous [async] function of [consume]: a channel of its own, the
    prefetch limit, the subscription with [onMessage] as callback. *)
Definition consume_channel (queue : string) (prefetch : Z) : AsyncFn unit :=
  await_rpc createChannel (fun listener =>
  await_rpc (ch_prefetch listener prefetch) (fun _ =>
  await_rpc (ch_consume listener queue) (fun _ =>
  aret tt))).

(** [consume] starts that function without awaiting it and returns the
    subject at once. *)
Definition consume (queue : string) (prefetch : option Z) : Js unit :=
  float (consume_channel queue (default 200%Z prefetch)).

Definition filterOrAck (filterByMessageData : json -> bool)
  : SubscriberMessage -> Js (option SubscriberMessage) :=
  filter (fun message =>
    if filterByMessageData (data message) then mret (true, message)
    else ackMessage message ;; mret (false, message)).

Definition ErrorHandler : Type := Error -> SubscriberMessage -> Js unit.

Definition attemptMessageData (schema : Schema) (onError : ErrorHandler)
  : SubscriberMessage -> Js (option SubscriberMessage) :=
  filter (fun message =>
    match Joi_attempt schema (data message) with
    | Ok v => mret (true, set_data v message)
    | Throw error =>
        ackMessage message ;;
        onError error message ;;
        mret (false, message)
    end).
End Client.
End Events.

(** * The dead-letter client ([src/encrypt.ts]) *)

Module Encrypt.
Section Client.
Context (JSON_parse : string -> Outcome json)
        (JSON_stringify : json -> string)
        {Schema : Type}
        (Joi_attempt : Schema -> json -> Outcome json).

(** [AbstractConsumeMessage<T>] *)
Record AbstractConsumeMessage : Type := mkAbstractConsumeMessage {
  exchange : string;
  routingKey : string;
  sourceData : json;
  data : json;
  ackMessage : Js unit
}.

(** [ConsumeMessage<T> extends AbstractConsumeMessage<T>] *)
Record ConsumeMessage : Type := mkConsumeMessage {
  consume_base :> AbstractConsumeMessage;
  throwError : Error -> AsyncFn unit
}.

(** [ErrMessage<T> extends AbstractConsumeMessage<T>]; [replyData] is
    the function [replyData] below. *)
Record ErrMessage : Type := mkErrMessage {
  err_base :> AbstractConsumeMessage;
  errMessage : string;
  errType : string;
  sourceExchange : string;
  sourceRoutingKey : string
}.

Definition set_data (v : json) (m : ConsumeMessage) : ConsumeMessage :=
  mkConsumeMessage
    (mkAbstractConsumeMessage (exchange m) (routingKey m) (sourceData m) v
                              (ackMessage m))
    (throwError m).

Definition assertExchange (exchange : string) : AsyncFn unit :=
  await_rpc (ch_assertExchange exchange "topic" true) (fun _ =>
  aret tt).

Definition assertQueue (exchange routingKey queue : string) : AsyncFn unit :=
  await_rpc (ch_assertExchange exchange "topic" true) (fun _ =>
  await_rpc (ch_assertQueue queue true) (fun _ =>
  await_rpc (ch_bindQueue queue exchange routingKey) (fun _ =>
  aret tt))).

Definition connect (onConnected : AsyncFn unit) : AsyncFn Chan :=
  await_rpc createChannel (fun publisher =>
  await onConnected (fun _ =>
  aret publisher)).

(** [async function publish]: the result of [publisher.publish] is not
    returned; the promise resolves to [undefined]. *)
Definition publish (exchange routingKey : string) (data : json)
           (priority : option Z) : AsyncFn unit :=
  let json := JSON_stringify data in
  let buffer := json in
  async_of_sync (ch_publish exchange routingKey buffer priority ;; mret tt).

(** The object literal [errData] of [throwError]. *)
Definition errData (exchange routingKey : string) (sourceData : json) (err : Error)
  : json :=
  JObj [ ("sourceExchange", JStr exchange);
         ("sourceRoutingKey", JStr routingKey);
         ("sourceData", sourceData);
         ("errType", JStr (constructor_name err));
         ("errMessage", JStr (message_of err)) ].

(** The callback [consume] registers on its channel. *)
Definition onMessage (listener : Chan) (message : option Delivery)
  : Handled ConsumeMessage :=
  match message with
  | None => Ignored
  | Some message =>
      let exchange := fields_exchange message in
      let routingKey := fields_routingKey message in
      match JSON_parse (content message) with
      | Throw e => Raised e
      | Ok sourceData =>
          let data := sourceData in
          let ackMessage := perform (ch_ack listener (fields_deliveryTag message)) in
          let throwError := fun err : Error =>
            let errType := constructor_name err in
            await (assertQueue "error" errType "errors") (fun _ =>
            await (publish "error" errType
                           (errData exchange routingKey sourceData err) None) (fun _ =>
            aret tt)) in
          Emitted (mkConsumeMessage
                     (mkAbstractConsumeMessage exchange routingKey sourceData data
                                               ackMessage)
                     throwError)
      end
  end.

Definition consume_channel (queue : string) (prefetch : Z) : AsyncFn unit :=
  await_rpc createChannel (fun listener =>
  await_rpc (ch_prefetch listener prefetch) (fun _ =>
  await_rpc (ch_consume listener queue) (fun _ =>
  aret tt))).

Definition consume (queue : string) (prefetch : option Z) : Js unit :=
  float (consume_channel queue (default 200%Z prefetch)).

(** A property read at type [string]. *)
Definition as_string (v : option json) : option string :=
  match v with
  | Some (JStr s) => Some s
  | _ => None
  end.

(** The view of a parsed body at type [ErrMessage<T>]: the five
    properties an error record carries, with [exchange], [routingKey],
    [data] and [ackMessage] as the callback assigns them.  The cast in the
    source is unchecked; a body without this shape is [IllTyped]. *)
Definition castErrMessage (parsed : json) (exchange routingKey : string)
           (ackMessage : Js unit) : option ErrMessage :=
  match parsed with
  | JObj members =>
      sourceData ← assoc "sourceData" members;
      errMessage ← as_string (assoc "errMessage" members);
      errType ← as_string (assoc "errType" members);
      sourceExchange ← as_string (assoc "sourceExchange" members);
      sourceRoutingKey ← as_string (assoc "sourceRoutingKey" members);
      Some (mkErrMessage
              (mkAbstractConsumeMessage exchange routingKey sourceData
                                        sourceData ackMessage)
              errMessage errType sourceExchange sourceRoutingKey)
  | _ => None
  end.

(** The callback [consumeErrors] registers on its channel. *)
Definition onErrMessage (listener : Chan) (message : option Delivery)
  : Handled ErrMessage :=
  match message with
  | None => Ignored
  | Some message =>
      match JSON_parse (content message) with
      | Throw e => Raised e
      | Ok parsed =>
          match castErrMessage parsed
                  (fields_exchange message) (fields_routingKey message)
                  (perform (ch_ack listener (fields_deliveryTag message))) with
          | Some errMessage => Emitted errMessage
          | None => IllTyped
          end
      end
  end.

(** [errMessage.replyData]: the closure reads the fields of the object
    when it is called, so it is a function of the record. *)
Definition replyData (errMessage : ErrMessage) (priority : option Z) : AsyncFn unit :=
  publish (sourceExchange errMessage) (sourceRoutingKey errMessage)
          (data errMessage) priority.

Definition consumeErrors_channel (prefetch : Z) : AsyncFn unit :=
  await_rpc createChannel (fun listener =>
  await_rpc (ch_prefetch listener prefetch) (fun _ =>
  await_rpc (ch_consume listener "errors") (fun _ =>
  aret tt))).

Definition consumeErrors (prefetch : option Z) : Js unit :=
  float (consumeErrors_channel (default 200%Z prefetch)).

Definition assertData (schema : Schema)
  : ConsumeMessage -> Js (option ConsumeMessage) :=
  filter (fun message : ConsumeMessage =>
    match Joi_attempt schema (data message) with
    | Ok v => mret (true, set_data v message)
    | Throw error =>
        ackMessage message ;;
        float (throwError message error) ;;
        mret (false, message)
    end).

Definition filterOrAck (filterByMessageData : json -> bool)
  : ConsumeMessage -> Js (option ConsumeMessage) :=
  filter (fun message : ConsumeMessage =>
    if filterByMessageData (data message) then mret (true, message)
    else ackMessage message ;; mret (false, message)).
End Client.
End Encrypt.

Coercion Encrypt.consume_base : Encrypt.ConsumeMessage >-> Encrypt.AbstractConsumeMessage.
Coercion Encrypt.err_base : Encrypt.ErrMessage >-> Encrypt.AbstractConsumeMessage.

(** * A concrete codec and validator

    The clients are parametric in [JSON.parse], [JSON.stringify] and
    [Joi.attempt].  The codec below covers JSON with integer numbers and the
    two-character escapes; other escapes and fractions are rejected.  It is
    used to run the clients on concrete messages. *)

Module Sample.

Definition is_ws (c : ascii) : bool :=
  match c with
  | " "%char | "009"%char | "010"%char | "013"%char => true
  | _ => false
  end.

Fixpoint skip_ws (s : string) : string :=
  match s with
  | String c r => if is_ws c then skip_ws r else s
  | EmptyString => s
  end.

Fixpoint strip_prefix (p s : string) : option string :=
  match p, s with
  | EmptyString, _ => Some s
  | String a p', String b s' => if Ascii.eqb a b then strip_prefix p' s' else None
  | String _ _, EmptyString => None
  end.

Definition digit_of (c : ascii) : option Z :=
  let n := Z.of_nat (nat_of_ascii c) in
  if (48 <=? n)%Z && (n <=? 57)%Z then Some (n - 48)%Z else None.

(** Digits after the first one. *)
Fixpoint parse_digits (acc : Z) (s : string) : Z * string :=
  match s with
  | String c r =>
      match digit_of c with
      | Some d => parse_digits (10 * acc + d)%Z r
      | None => (acc, s)
      end
  | EmptyString => (acc, s)
  end.

(** [int]: [0], or a non-zero digit followed by digits. *)
Definition parse_nat (s : string) : option (Z * string) :=
  match s with
  | String c r =>
      match digit_of c with
      | Some 0%Z => Some (0%Z, r)
      | Some d => Some (parse_digits d r)
      | None => None
      end
  | EmptyString => None
  end.

(** The integer must not run into a fraction or an exponent. *)
Definition ends_number (s : string) : bool :=
  match s with
  | String c _ =>
      negb (Ascii.eqb c "." || Ascii.eqb c "e" || Ascii.eqb c "E"
            || match digit_of c with Some _ => true | None => false end)
  | EmptyString => true
  end.

Definition parse_number (s : string) : option (json * string) :=
  let signed := match s with
                | String "-" r => (true, r)
                | _ => (false, s)
                end in
  match parse_nat signed.2 with
  | Some (n, r) =>
      if ends_number r then Some (JNum (if signed.1 then (- n)%Z else n), r)
      else None
  | None => None
  end.

Definition unescape (c : ascii) : option ascii :=
  match c with
  | "034"%char => Some "034"%char
  | "\"%char => Some "\"%char
  | "/"%char => Some "/"%char
  | "b"%char => Some "008"%char
  | "f"%char => Some "012"%char
  | "n"%char => Some "010"%char
  | "r"%char => Some "013"%char
  | "t"%char => Some "009"%char
  | _ => None
  end.

(** The characters of a string literal after its opening quote. *)
Fixpoint parse_chars (s : string) : option (string * string) :=
  match s with
  | EmptyString => None
  | String "034" r => Some (EmptyString, r)
  | String "\" (String c r) =>
      match unescape c, parse_chars r with
      | Some c', Some (str, r') => Some (String c' str, r')
      | _, _ => None
      end
  | String "\" EmptyString => None
  | String c r =>
      if (nat_of_ascii c <? 32)%nat then None
      else match parse_chars r with
           | Some (str, r') => Some (String c str, r')
           | None => None
           end
  end.

(** A later member with the same key replaces the value of the earlier
    one, in place. *)
Fixpoint set_member (k : string) (v : json) (members : list (string * json))
  : list (string * json) :=
  match members with
  | [] => [(k, v)]
  | (k', v') :: rest =>
      if String.eqb k k' then (k', v) :: rest else (k', v') :: set_member k v rest
  end.

Section Containers.
Variable parse_value : string -> option (json * string).

(** Elements after [\[], at least one. *)
Fixpoint parse_elements (fuel : nat) (acc : list json) (s : string)
  : option (list json * string) :=
  match fuel with
  | O => None
  | S fuel' =>
      match parse_value s with
      | Some (v, r) =>
          match skip_ws r with
          | String "," r' => parse_elements fuel' (acc ++ [v])%list r'
          | String "]" r' => Some ((acc ++ [v])%list, r')
          | _ => None
          end
      | None => None
      end
  end.

(** Members after [{], at least one. *)
Fixpoint parse_members (fuel : nat) (acc : list (string * json)) (s : string)
  : option (list (string * json) * string) :=
  match fuel with
  | O => None
  | S fuel' =>
      match skip_ws s with
      | String "034" r =>
          match parse_chars r with
          | Some (k, r1) =>
              match skip_ws r1 with
              | String ":" r2 =>
                  match parse_value r2 with
                  | Some (v, r3) =>
                      match skip_ws r3 with
                      | String "," r4 => parse_members fuel' (set_member k v acc) r4
                      | String "}" r4 => Some (set_member k v acc, r4)
                      | _ => None
                      end
                  | None => None
                  end
              | _ => None
              end
          | None => None
          end
      | _ => None
      end
  end.
End Containers.

Fixpoint parse_value (fuel : nat) (s : string) : option (json * string) :=
  match fuel with
  | O => None
  | S fuel' =>
      let s := skip_ws s in
      match s with
      | String "n" _ => r ← strip_prefix "null" s; Some (JNull, r)
      | String "t" _ => r ← strip_prefix "true" s; Some (JBool true, r)
      | String "f" _ => r ← strip_prefix "false" s; Some (JBool false, r)
      | String "034" r => '(str, r') ← parse_chars r; Some (JStr str, r')
      | String "[" r =>
          match skip_ws r with
          | String "]" r' => Some (JArr [], r')
          | _ => '(items, r') ← parse_elements (parse_value fuel') fuel' [] r;
                 Some (JArr items, r')
          end
      | String "{" r =>
          match skip_ws r with
          | String "}" r' => Some (JObj [], r')
          | _ => '(members, r') ← parse_members (parse_value fuel') fuel' [] r;
                 Some (JObj members, r')
          end
      | _ => parse_number s
      end
  end.

Definition JSON_parse (text : string) : Outcome json :=
  match parse_value (S (String.length text)) text with
  | Some (v, rest) =>
      match skip_ws rest with
      | EmptyString => Ok v
      | _ => Throw (SyntaxError "Unexpected non-whitespace character after JSON")
      end
  | None => Throw (SyntaxError "Unexpected token or end of JSON input")
  end.

Definition hex_digit (n : nat) : ascii :=
  ascii_of_nat (if (n <? 10)%nat then 48 + n else 87 + n).

Definition escape (c : ascii) : string :=
  match c with
  | "034"%char => String "\" (String "034" EmptyString)
  | "\"%char => "\\"
  | "008"%char => "\b"
  | "012"%char => "\f"
  | "010"%char => "\n"
  | "013"%char => "\r"
  | "009"%char => "\t"
  | _ =>
      let n := nat_of_ascii c in
      if (n <? 32)%nat
      then "\u00" ++ String (hex_digit (n / 16)) (String (hex_digit (n mod 16)) EmptyString)
      else String c EmptyString
  end.

Fixpoint escape_chars (s : string) : string :=
  match s with
  | EmptyString => EmptyString
  | String c r => escape c ++ escape_chars r
  end.

Definition quote (s : string) : string :=
  String "034" (escape_chars s ++ String "034" EmptyString).

Definition join (parts : list string) : string :=
  match parts with
  | [] => EmptyString
  | first :: rest => fold_left (fun acc part => acc ++ "," ++ part) rest first
  end.

Fixpoint JSON_stringify (v : json) : string :=
  match v with
  | JNull => "null"
  | JBool true => "true"
  | JBool false => "false"
  | JNum n => NilZero.string_of_int (Z.to_int n)
  | JStr s => quote s
  | JArr items => "[" ++ join (List.map JSON_stringify items) ++ "]"
  | JObj members =>
      "{" ++ join (List.map (fun kv => quote kv.1 ++ ":" ++ JSON_stringify kv.2) members)
          ++ "}"
  end.

(** A schema in the style of [{ id: Joi.number(), name: Joi.string() }]:
    keys are optional, unknown keys are allowed, and a listed key that is
    present must have the listed type. *)
Inductive FieldType : Type := TNumber | TString.

Definition Schema : Type := list (string * FieldType).

Definition ValidationError (msg : string) : Error := mkError "ValidationError" msg.

Definition field_ok (t : FieldType) (v : json) : bool :=
  match t, v with
  | TNumber, JNum _ => true
  | TString, JStr (String _ _) => true
  | _, _ => false
  end.

Fixpoint check_fields (schema : Schema) (members : list (string * json))
  : option string :=
  match schema with
  | [] => None
  | (k, t) :: rest =>
      match assoc k members with
      | Some v => if field_ok t v then check_fields rest members else Some k
      | None => check_fields rest members
      end
  end.

Definition Joi_attempt (schema : Schema) (value : json) : Outcome json :=
  match value with
  | JObj members =>
      match check_fields schema members with
      | None => Ok value
      | Some k => Throw (ValidationError (quote k ++ " is not of the required type"))
      end
  | _ => Throw (ValidationError "value must be of type object")
  end.

End Sample.


(** * Specification vocabulary *)

(** The settled promise of a synchronous outcome. *)
Definition of_outcome {A} (r : Outcome A * World) : Async A * World :=
  match r with
  | (Ok a, w) => (Resolved a, w)
  | (Throw e, w) => (Rejected e, w)
  end.

(** [f] called in [w] is settled as [p] in world [w'] after [n] turns, and
    stays so. *)
Definition completes {A} (f : AsyncFn A) (w : World) (n : nat)
           (p : Async A) (w' : World) : Prop :=
  settled p = true /\ forall m, call_and_run (n + m) f w = (p, w').

(** The same for a promise that was already started. *)
Definition completes_from {A} (p0 : Async A) (w : World) (n : nat)
           (p : Async A) (w' : World) : Prop :=
  settled p = true /\ forall m, run (n + m) p0 w = (p, w').

(** A broker with nothing declared. *)
Definition initial_world : World := mkWorld ∅ ∅ ∅ true 0 [].

(** The broker accepts the client's declaration of the exchange: the name
    is free or already a durable topic exchange. *)
Definition exchange_assertable (exchange : string) (w : World) : Prop :=
  exchanges w !! exchange = None \/ exchanges w !! exchange = Some ("topic", true).

(** The name of the queue is free or already a durable queue. *)
Definition queue_assertable (queue : string) (w : World) : Prop :=
  queues w !! queue = None \/ queues w !! queue = Some true.

(** The three methods of [assertQueue], one after the other. *)
Definition assertQueue_methods (exchange routingKey queue : string) : Sync unit :=
  ch_assertExchange exchange "topic" true ;;
  ch_assertQueue queue true ;;
  ch_bindQueue queue exchange routingKey.

(** The runtime after the acknowledgment of delivery [d] on [listener]. *)
Definition acked (listener : Chan) (d : Delivery) (rt : Runtime) : Runtime :=
  mkRuntime (emit (EAck listener (fields_deliveryTag d)) (world rt)) (floating rt).

(** The methods issued from [w] to [w'] extend the trace and hold no
    acknowledgment of the delivery [tag] on [listener]. *)
Definition grows_without_ack (listener : Chan) (tag : N) (w w' : World) : Prop :=
  exists evs, trace w' = (trace w ++ evs)%list /\ acks listener tag evs = 0.

(** Every turn of the promise, in any world, is related by [R]. *)
Inductive Keeps {A : Type} (R : World -> World -> Prop) : Async A -> Prop :=
| Keeps_resolved a : Keeps R (Resolved a)
| Keeps_rejected e : Keeps R (Rejected e)
| Keeps_suspended resume :
    (forall w, R w (resume w).2) ->
    (forall w, Keeps R (resume w).1) ->
    Keeps R (Suspended resume).

Definition KeepsFn {A : Type} (R : World -> World -> Prop) (f : AsyncFn A) : Prop :=
  forall w, R w (f w).2 /\ Keeps R (f w).1.

(** A caller-supplied error handler that does not itself acknowledge the
    delivery. *)
Definition handler_does_not_ack (listener : Chan) (tag : N)
           (onError : Events.ErrorHandler) : Prop :=
  forall error m rt,
    acks listener tag (trace (world (onError error m rt).2))
    = acks listener tag (trace (world rt)).

(** The filter stages of the basic client. *)
Inductive Events_stage {Schema : Type} (Joi_attempt : Schema -> json -> Outcome json)
          (listener : Chan) (tag : N)
  : (Events.SubscriberMessage -> Js (option Events.SubscriberMessage)) -> Prop :=
| Events_stage_filterOrAck p :
    Events_stage Joi_attempt listener tag (Events.filterOrAck p)
| Events_stage_attemptMessageData schema onError :
    handler_does_not_ack listener tag onError ->
    Events_stage Joi_attempt listener tag
                 (Events.attemptMessageData Joi_attempt schema onError).

(** The filter stages of the dead-letter client. *)
Inductive Encrypt_stage {Schema : Type} (Joi_attempt : Schema -> json -> Outcome json)
  : (Encrypt.ConsumeMessage -> Js (option Encrypt.ConsumeMessage)) -> Prop :=
| Encrypt_stage_filterOrAck p :
    Encrypt_stage Joi_attempt (Encrypt.filterOrAck p)
| Encrypt_stage_assertData schema :
    Encrypt_stage Joi_attempt (Encrypt.assertData Joi_attempt schema).

(** Acknowledgments a pipeline run adds: none for an envelope that passes,
    one otherwise. *)
Definition acks_added {T : Type} (r : Outcome (option T)) : nat :=
  match r with
  | Ok (Some _) => 0
  | _ => 1
  end.

(** Sample messages: an order, an order whose [id] is not a number, and a
    body that is not JSON. *)
Definition order_payload : json := JObj [("id", JNum 1)].
Definition bad_payload : json := JObj [("id", JStr "x")].

Definition order_delivery : Delivery :=
  mkDelivery "orders" "created" 7 (Sample.JSON_stringify order_payload).
Definition bad_delivery : Delivery :=
  mkDelivery "orders" "created" 8 (Sample.JSON_stringify bad_payload).
Definition garbled_delivery : Delivery :=
  mkDelivery "orders" "created" 9 "oops".

Definition order_schema : Sample.Schema := [("id", Sample.TNumber)].

Definition initial_runtime : Runtime := mkRuntime initial_world [].

(** A broker on which [error] was declared as a fanout exchange. *)
Definition fanout_error_world : World :=
  mkWorld {[ "error" := ("fanout", true) ]} ∅ ∅ true 0 [].

Definition is_one (v : json) : bool :=
  match v with
  | JObj [(_, JNum 1)] => true
  | _ => false
  end.

Definition ignore_error : Events.ErrorHandler := fun _ _ => mret tt.

(** The error record [throwError] writes for [bad_delivery]. *)
Definition bad_record : json :=
  Encrypt.errData "orders" "created" bad_payload
    (Sample.ValidationError "id is not of the required type").

Definition error_delivery : Delivery :=
  mkDelivery "error" "ValidationError" 3 (Sample.JSON_stringify bad_record).

(** ** Vocabulary of the further properties *)

(** The filter stages of the basic client, with any error handler. *)
Inductive Events_operator {Schema : Type} (Joi_attempt : Schema -> json -> Outcome json)
  : (Events.SubscriberMessage -> Js (option Events.SubscriberMessage)) -> Prop :=
| Events_operator_filterOrAck p :
    Events_operator Joi_attempt (Events.filterOrAck p)
| Events_operator_attemptMessageData schema onError :
    Events_operator Joi_attempt (Events.attemptMessageData Joi_attempt schema onError).

(** * Token issuance ([src/encrypt.ts], lines 1-55) *)

Module Jwt.

(** The claims [verify] returns; absent claims are [None]. *)
Record JwtPayload : Type := mkJwtPayload {
  sub : option string;
  exp : option Z;
  iat : option Z
}.

(** The result of [signToken]. *)
Record Tokens : Type := mkTokens {
  accessToken : string;
  refreshToken : string
}.

(** The wall clock: the epoch milliseconds each successive reading gives,
    and the number of readings taken so far. *)
Record Clock : Type := mkClock {
  readings : nat -> Z;
  reads : nat
}.

(** [datetime().tz()...toDate().getTime()]: one reading of the clock. *)
Definition getTime (c : Clock) : Z * Clock :=
  (readings c (reads c), mkClock (readings c) (S (reads c))).

Definition JwtError (msg : string) : Error := mkError "JwtError" msg.

(** JavaScript truthiness of an optional string and of an optional
    number. *)
Definition truthy_string (s : option string) : bool :=
  match s with
  | Some (String _ _) => true
  | _ => false
  end.

Definition truthy_number (n : option Z) : bool :=
  match n with
  | Some n => negb (n =? 0)%Z
  | None => false
  end.

Section SignToken.
Context (sign : json -> string -> string)
        (verify : string -> string -> Outcome JwtPayload)
        (JWT_SECRET : string)
        (JWT_REFRESH_TIME JWT_EXPIRES : Z).

(** The object literal [accessTokenPayload]. *)
Definition accessTokenPayload (userId roles permissions : string) (exp now : Z) : json :=
  JObj [ ("sub", JStr userId);
         ("exp", JNum exp);
         ("iat", JNum now);
         ("rle", JStr roles);
         ("prm", JStr permissions) ].

(** The object literal [refreshTokenPayload] of the branch without a
    refresh token. *)
Definition refreshTokenPayload (userId : string) (exp now : Z) : json :=
  JObj [ ("sub", JStr userId);
         ("exp", JNum exp);
         ("iat", JNum now) ].

Definition signToken (userId roles permissions : string) (refreshToken : option string)
  : Clock -> Outcome Tokens * Clock :=
  fun c0 =>
    let (t0, c1) := getTime c0 in
    let now := (t0 / 1000)%Z in
    let (t1, c2) := getTime c1 in
    let access :=
      accessTokenPayload userId roles permissions
                         ((t1 + JWT_REFRESH_TIME) / 1000)%Z now in
    if truthy_string refreshToken then
      let token := default EmptyString refreshToken in
      match verify token JWT_SECRET with
      | Throw e => (Throw e, c2)
      | Ok payload =>
          if negb (bool_decide (sub payload = Some userId)) then
            (Throw (JwtError "Not the same user"), c2)
          else if negb (truthy_number (exp payload)) then
            (Throw (JwtError "Wrong refresh token"), c2)
          else if (default 0%Z (exp payload) <? now)%Z then
            (Throw (JwtError "Refresh token be overdue"), c2)
          else
            (Ok (mkTokens (sign access JWT_SECRET) token), c2)
      end
    else
      let (t2, c3) := getTime c2 in
      let refresh :=
        refreshTokenPayload userId ((t2 + JWT_EXPIRES) / 1000)%Z now in
      (Ok (mkTokens (sign access JWT_SECRET) (sign refresh JWT_SECRET)), c3).
End SignToken.
End Jwt.

(** * HTTP error handling ([src/unnamed/part_001], lines 1-240 and
      255-336) *)

Module Http.

(** An instance of a subclass of the abstract class
    [HttpServerException]: what [getHttpResponseStatusCode()] returns, and
    the message. *)
Record HttpServerException : Type := mkHttpServerException {
  getHttpResponseStatusCode : Z;
  exception_message : string
}.

Definition WrongParameterException (msg : string) := mkHttpServerException 400 msg.
Definition NotFoundException (msg : string) := mkHttpServerException 404 msg.
Definition UnauthorizedException (msg : string) := mkHttpServerException 401 msg.
Definition NoPermissionException (msg : string) := mkHttpServerException 403 msg.
Definition ServerErrorException (msg : string) := mkHttpServerException 500 msg.

(** A thrown value, by the classes the handlers tell apart with
    [instanceof]. *)
Inductive Thrown : Type :=
| JoiValidationError (details : json) (msg : string)
| JwtError (msg : string)
| MulterError (msg : string)
| HttpException (e : HttpServerException)
| OtherError (msg : string).

(** [error.message] *)
Definition message (error : Thrown) : string :=
  match error with
  | JoiValidationError _ msg => msg
  | JwtError msg => msg
  | MulterError msg => msg
  | HttpException e => exception_message e
  | OtherError msg => msg
  end.

(** What was called on an Express response, in order. *)
Inductive ResponseAction : Type :=
| Status (code : Z)
| Send (body : json)
| Render (view : string).

Record Response : Type := mkResponse {
  originalUrl : string;          (* [response.req.originalUrl] *)
  actions : list ResponseAction
}.

Definition respond (new : list ResponseAction) (response : Response) : Response :=
  mkResponse (originalUrl response) (actions response ++ new).

(** [request.data] *)
Record RequestData : Type := mkRequestData {
  data_param : option json;
  data_query : option json;
  data_body : option json
}.

Record Request : Type := mkRequest {
  params : json;
  query : json;
  body : json;
  data : RequestData
}.

Definition ExceptionTransform : Type := Thrown -> option HttpServerException.
Definition ExceptionHandler : Type := Thrown -> Response -> Response.

(** A middleware: the request and response it leaves, and what it passes
    to [next]: nothing, or an error. *)
Definition Middleware : Type := Request -> Response -> Request * Response * option Thrown.

(** The options of [startup] that the error path reads. *)
Record StartupOptions : Type := mkStartupOptions {
  expandExceptionTransform : option ExceptionTransform;
  rewriteExceptionHandler : option ExceptionHandler
}.

(** [String.prototype.replace("/", "")]: the first slash is removed. *)
Fixpoint remove_first_slash (s : string) : string :=
  match s with
  | EmptyString => EmptyString
  | String c rest => if Ascii.eqb c "/" then rest else String c (remove_first_slash rest)
  end.

(** [n.toString()] for an integer. *)
Definition toString (n : Z) : string := NilZero.string_of_int (Z.to_int n).

Section Server.
Context (JSON_stringify : json -> string)
        {Schema : Type}
        (Joi_attempt : Schema -> json -> Thrown + json).

Definition wrongParameterExceptionTransform : ExceptionTransform :=
  fun error =>
    match error with
    | JoiValidationError details _ =>
        Some (WrongParameterException ("ValidationError:" ++ JSON_stringify details))
    | JwtError msg => Some (WrongParameterException msg)
    | MulterError msg => Some (WrongParameterException msg)
    | _ => None
    end.

(** [exceptionTransformMiddleware(transform)]: the error it passes to
    [next]. *)
Definition exceptionTransformMiddleware (transform : option ExceptionTransform)
           (error : Thrown) : Thrown :=
  match transform with
  | Some transform =>
      match transform error with
      | Some httpServerException => HttpException httpServerException
      | None => error
      end
  | None => error
  end.

(** [expandExceptionHandler(exceptionHandler)]: the response it leaves and
    the error it passes to [next]. *)
Definition expandExceptionHandler (exceptionHandler : option ExceptionHandler)
           (error : Thrown) (response : Response) : Response * Thrown :=
  match exceptionHandler with
  | Some exceptionHandler => (exceptionHandler error response, error)
  | None => (response, error)
  end.

Definition defaultExceptionHandler : ExceptionHandler :=
  fun error response =>
    match error with
    | HttpException e =>
        respond [Status (getHttpResponseStatusCode e);
                 Send (JObj [("message", JStr (exception_message e))])] response
    | _ =>
        respond [Status 500;
                 Send (JObj [("message",
                              JStr ("ServerError: " ++ message error
                                    ++ ", please make contact with backend developer!"))])]
                response
    end.

(** [asyncMiddleware(handler)]: [next()] when the handler's promise
    resolves, [next(error)] when it is rejected. *)
Definition asyncMiddleware
           (handler : Request -> Response -> Request * Response * option Thrown)
  : Middleware :=
  fun request response => handler request response.

Definition set_param (v : json) (request : Request) : Request :=
  mkRequest (params request) (query request) (body request)
            (mkRequestData (Some v) (data_query (data request)) (data_body (data request))).

Definition set_query (v : json) (request : Request) : Request :=
  mkRequest (params request) (query request) (body request)
            (mkRequestData (data_param (data request)) (Some v) (data_body (data request))).

Definition set_body (v : json) (request : Request) : Request :=
  mkRequest (params request) (query request) (body request)
            (mkRequestData (data_param (data request)) (data_query (data request)) (Some v)).

Definition validParam (schema : Schema) : Middleware :=
  asyncMiddleware (fun request response =>
    match Joi_attempt schema (params request) with
    | inr v => (set_param v request, response, None)
    | inl error => (request, response, Some error)
    end).

Definition validQuery (schema : Schema) : Middleware :=
  asyncMiddleware (fun request response =>
    match Joi_attempt schema (query request) with
    | inr v => (set_query v request, response, None)
    | inl error => (request, response, Some error)
    end).

Definition validBody (schema : Schema) : Middleware :=
  asyncMiddleware (fun request response =>
    match Joi_attempt schema (body request) with
    | inr v => (set_body v request, response, None)
    | inl error => (request, response, Some error)
    end).

(** [dataInitializer]: [request.data] becomes the empty object. *)
Definition dataInitializer : Middleware :=
  fun request response =>
    (mkRequest (params request) (query request) (body request)
               (mkRequestData None None None),
     response, None).

(** Express runs the middlewares of a route in order; the first error
    passed to [next] skips the rest. *)
Fixpoint run_middlewares (middlewares : list Middleware)
         (request : Request) (response : Response)
  : Request * Response * option Thrown :=
  match middlewares with
  | [] => (request, response, None)
  | middleware :: rest =>
      match middleware request response with
      | (request', response', None) => run_middlewares rest request' response'
      | (request', response', Some error) => (request', response', Some error)
      end
  end.

(** The three error middlewares [startup] registers after the router: the
    built-in transform, the caller's transform, the handler. *)
Definition error_chain (options : option StartupOptions)
           (error : Thrown) (response : Response) : Response * Thrown :=
  let error1 :=
    exceptionTransformMiddleware (Some wrongParameterExceptionTransform) error in
  let error2 :=
    exceptionTransformMiddleware
      (match options with
       | Some options => expandExceptionTransform options
       | None => None
       end) error1 in
  expandExceptionHandler
    (Some (match options with
           | Some {| rewriteExceptionHandler := Some handler |} => handler
           | _ => defaultExceptionHandler
           end))
    error2 response.

(** A request through [dataInitializer], the middlewares of its route and,
    on an error, the error middlewares.  The middlewares [startup] puts in
    front (rate limit, request log, compression, body parsers, passport)
    and the caller's [expandMiddlewares] are third-party code and are not
    part of the model. *)
Definition serve (options : option StartupOptions) (route : list Middleware)
           (request : Request) (response : Response) : Response :=
  match run_middlewares (dataInitializer :: route) request response with
  | (_, response', None) => response'
  | (_, response', Some error) => (error_chain options error response').1
  end.

(** [startWebsite]: the [rewriteExceptionHandler] it installs. *)
Definition isApiRequest (apiPrefix : string) (response : Response) : bool :=
  String.prefix apiPrefix (originalUrl response)
  || String.prefix (remove_first_slash apiPrefix) (originalUrl response).

Definition websiteExceptionHandler (apiPrefix : option string) : ExceptionHandler :=
  fun error response =>
    if match apiPrefix with
       | Some (String c rest) => isApiRequest (String c rest) response
       | _ => false
       end
    then defaultExceptionHandler error response
    else
      match error with
      | HttpException e =>
          respond [Status (getHttpResponseStatusCode e);
                   Render (toString (getHttpResponseStatusCode e))] response
      | _ => respond [Status 500; Render "500"] response
      end.
End Server.
End Http.

(** * Environment schema ([src/env.ts] and [src/unnamed/part_000]) *)

Module Env.

Inductive JoiType : Type := JoiString | JoiNumber | JoiInteger.

(** A field schema as the chained Joi calls describe it. *)
Record FieldSchema : Type := mkFieldSchema {
  joi_type : JoiType;
  joi_required : bool;
  joi_allow : list string;
  joi_default : option json
}.

(** An object of field schemas: its keys in insertion order. *)
Definition Group : Type := list (string * FieldSchema).

Definition systemSchema : Group :=
  [ ("NODE_ENV", mkFieldSchema JoiString true ["development"; "production"; "test"]
                               (Some (JStr "development")));
    ("NODE_TIMEZONE", mkFieldSchema JoiString true [] (Some (JStr "Asia/Hong_Kong"))) ].

Definition loggerSchema : Group :=
  [ ("LOGGER_LEVEL", mkFieldSchema JoiString true [] (Some (JStr "debug")));
    ("LOGGER_WEBHOOK_URL", mkFieldSchema JoiString false [] None) ].

Definition serverSchema : Group :=
  [ ("SERVER_PORT", mkFieldSchema JoiInteger false [] (Some (JNum 1234)));
    ("SERVER_JWT_FROM", mkFieldSchema JoiString true ["BearerToken"; "QueryParameter"]
                                      (Some (JStr "BearerToken"))) ].

Definition dbSchema : Group :=
  [ ("DB_HOST", mkFieldSchema JoiString true [] None);
    ("DB_USER", mkFieldSchema JoiString true [] None);
    ("DB_PASSWORD", mkFieldSchema JoiString true [] None);
    ("DB_DATABASE", mkFieldSchema JoiString true [] None) ].

Definition jwtSchema : Group :=
  [ ("JWT_SECRET", mkFieldSchema JoiString true [] (Some (JStr "HelloWorld!")));
    ("JWT_REFRESH_TIME", mkFieldSchema JoiInteger true [] (Some (JNum (1000 * 60 * 60))));
    ("JWT_EXPIRES", mkFieldSchema JoiInteger true [] (Some (JNum (1000 * 60 * 60 * 48)))) ].

Definition mqSchema : Group :=
  [ ("MQ_HOST", mkFieldSchema JoiString true [] None) ].

Definition customSchema : Group := [].

(** Property write [o[k] = v] on an object: a present key keeps its place. *)
Fixpoint set_field (k : string) (v : FieldSchema) (o : Group) : Group :=
  match o with
  | [] => [(k, v)]
  | (k', v') :: rest =>
      if String.eqb k k' then (k', v) :: rest else (k', v') :: set_field k v rest
  end.

(** [{ ...prev, ...curr }] *)
Definition spread (prev curr : Group) : Group :=
  fold_left (fun o kv => set_field kv.1 kv.2 o) curr prev.

(** [Map.prototype.set] and [Map.prototype.delete] on a map with string
    keys, in insertion order. *)
Fixpoint Map_set (k : string) (v : Group) (m : list (string * Group))
  : list (string * Group) :=
  match m with
  | [] => [(k, v)]
  | (k', v') :: rest =>
      if String.eqb k k' then (k', v) :: rest else (k', v') :: Map_set k v rest
  end.

Fixpoint Map_delete (k : string) (m : list (string * Group)) : list (string * Group) :=
  match m with
  | [] => []
  | (k', v') :: rest =>
      if String.eqb k k' then rest else (k', v') :: Map_delete k rest
  end.

(** [s.split(",")] *)
Fixpoint split (s : string) : list string :=
  match s with
  | EmptyString => [EmptyString]
  | String c rest =>
      if Ascii.eqb c "," then EmptyString :: split rest
      else match split rest with
           | first :: others => String c first :: others
           | [] => [String c EmptyString]
           end
  end.

(** The map [schemas] after the seven [set] calls. *)
Definition schemas_set : list (string * Group) :=
  Map_set "custom" customSchema
    (Map_set "mq" mqSchema
       (Map_set "jwt" jwtSchema
          (Map_set "db" dbSchema
             (Map_set "server" serverSchema
                (Map_set "logger" loggerSchema
                   (Map_set "system" systemSchema [])))))).

(** [NODE_SCHEMA_EXCLUDES.split(",").forEach(s => schemas.delete(s))] *)
Definition schemas (NODE_SCHEMA_EXCLUDES : string) : list (string * Group) :=
  fold_left (fun m s => Map_delete s m) (split NODE_SCHEMA_EXCLUDES) schemas_set.

(** [schemas.values().reduce((prev, curr) => ({ ...prev, ...curr }), {})]:
    the keys of the object given to [Joi.object] in [part_000]. *)
Definition schema (NODE_SCHEMA_EXCLUDES : string) : Group :=
  fold_left spread (List.map snd (schemas NODE_SCHEMA_EXCLUDES)) [].

(** The object given to [Joi.object] in [env.ts]: the seven spreads. *)
Definition static_schema : Group :=
  spread (spread (spread (spread (spread (spread (spread []
    systemSchema) loggerSchema) serverSchema) dbSchema) jwtSchema) mqSchema)
    customSchema.

End Env.

(** * Transactions ([src/database.ts]) *)

Module Database.

(** What was asked of knex, in order. *)
Inductive TxEvent : Type :=
| TxBegin
| TxCommit
| TxRollback
| TxQuery (sql : string).

Definition Db : Type := list TxEvent.

Section SafeTransaction.
(** Whether knex fulfils or rejects the three calls, given what was asked
    so far. *)
Context (transaction_outcome commit_outcome rollback_outcome : Db -> Outcome unit).

Definition database_transaction : Db -> Outcome unit * Db :=
  fun db => (transaction_outcome db, (db ++ [TxBegin])%list).

Definition transaction_commit : Db -> Outcome unit * Db :=
  fun db => (commit_outcome db, (db ++ [TxCommit])%list).

Definition transaction_rollback : Db -> Outcome unit * Db :=
  fun db => (rollback_outcome db, (db ++ [TxRollback])%list).

(** A handler returns a promise (it is typed [Promise<void>]): how the
    promise settles and what the handler asked of knex. *)
Definition TransactionHandler : Type := Db -> Outcome unit * Db.

(** [.catch(error => transaction.rollback().then(() => error))]: the
    promise is fulfilled with the error as its value when the rollback
    is. *)
Definition rollback_and_swallow (db : Db) : Outcome unit * Db :=
  match transaction_rollback db with
  | (Ok _, db') => (Ok tt, db')
  | (Throw rollback_error, db') => (Throw rollback_error, db')
  end.

Definition safeTransaction (handler : TransactionHandler) : Db -> Outcome unit * Db :=
  fun db =>
    match database_transaction db with
    | (Throw e, db1) => (Throw e, db1)
    | (Ok _, db1) =>
        match handler db1 with
        | (Ok _, db2) =>
            match transaction_commit db2 with
            | (Ok _, db3) => (Ok tt, db3)
            | (Throw _, db3) => rollback_and_swallow db3
            end
        | (Throw _, db2) => rollback_and_swallow db2
        end
    end.
End SafeTransaction.
End Database.

(** ** Vocabulary of the schema and transaction properties *)

(** The named groups of [part_000], in the order they are set. *)
Definition schema_groups : list (string * Env.Group) :=
  [ ("system", Env.systemSchema); ("logger", Env.loggerSchema);
    ("server", Env.serverSchema); ("db", Env.dbSchema);
    ("jwt", Env.jwtSchema); ("mq", Env.mqSchema); ("custom", Env.customSchema) ].

(** The name is one of the comma-separated entries of the exclusion
    list. *)
Definition excluded (NODE_SCHEMA_EXCLUDES name : string) : bool :=
  existsb (String.eqb name) (Env.split NODE_SCHEMA_EXCLUDES).

(** ** Sample inputs of the further properties *)

(** A broker on which the order topology is declared and the publisher
    channel is open. *)
Definition orders_world : World :=
  mkWorld {[ "orders" := ("topic", true) ]} {[ "orders.created" := true ]}
          {[ ("orders.created", "orders", "created") ]} true 1 [].

(** An envelope of the dead-letter client for the order. *)
Definition order_message : Encrypt.ConsumeMessage :=
  Encrypt.mkConsumeMessage
    (Encrypt.mkAbstractConsumeMessage "orders" "created" order_payload order_payload
                                      (perform (ch_ack 1 7)))
    (fun _ => aret tt).

Definition order_envelope : Events.SubscriberMessage :=
  Events.mkSubscriberMessage "orders" "created" "orders.created"
                             order_payload order_payload (perform (ch_ack 1 7)).

(** A signer, a verifier that knows one refresh token, and a clock. *)
Definition sample_sign (payload : json) (secret : string) : string :=
  Sample.JSON_stringify payload ++ "." ++ secret.

Definition sample_verify (token secret : string) : Outcome Jwt.JwtPayload :=
  if String.eqb token "alice-refresh"
  then Ok (Jwt.mkJwtPayload (Some "alice") (Some 2000%Z) (Some 1000%Z))
  else Throw (mkError "JsonWebTokenError" "invalid token").

Definition sample_clock : Jwt.Clock :=
  Jwt.mkClock (fun n => (2000999 + Z.of_nat n)%Z) 0.

(** A validator for requests: a body must be an object whose [id] is a
    number. *)
Definition sample_validate (schema : Sample.Schema) (value : json) : Http.Thrown + json :=
  match Sample.Joi_attempt schema value with
  | Ok v => inr v
  | Throw e =>
      inl (Http.JoiValidationError (JArr [JObj [("message", JStr (message_of e))]])
                                   (message_of e))
  end.

Definition sample_request : Http.Request :=
  Http.mkRequest (JObj []) (JObj []) bad_payload
                 (Http.mkRequestData None None (Some JNull)).

Definition sample_response : Http.Response := Http.mkResponse "/api/orders" [].

(** A handler whose promise is rejected after one query. *)
Definition failing_handler : Database.TransactionHandler :=
  fun db => (Throw (mkError "Error" "constraint violated"),
             (db ++ [Database.TxQuery "insert into orders"])%list).

(** * Properties *)

(** ** Promises: running to completion *)

Lemma run_settled {A} (n : nat) (p : Async A) (w : World) :
  settled p = true -> run n p w = (p, w).
Proof.
  revert p w; induction n as [|n IH]; intros p w Hp; [reflexivity|].
  destruct p; try discriminate; simpl; apply IH; reflexivity.
Qed.

Lemma run_add {A} (n m : nat) (p : Async A) (w : World) :
  run (n + m) p w = run m (run n p w).1 (run n p w).2.
Proof.
  revert p w; induction n as [|n IH]; intros p w; [reflexivity|].
  simpl. destruct (turn p w) as [p' w']. apply IH.
Qed.

Lemma completes_call {A} (f : AsyncFn A) w n p w' :
  completes f w n p w' <-> completes_from (f w).1 (f w).2 n p w'.
Proof.
  unfold completes, completes_from, call_and_run.
  destruct (f w) as [p0 w0]; reflexivity.
Qed.

Lemma completes_aret {A} (a : A) (w : World) :
  completes (aret a) w 0 (Resolved a) w.
Proof.
  split; [reflexivity|]. intros m. unfold call_and_run, aret.
  apply run_settled; reflexivity.
Qed.

Lemma completes_async_of_sync {A} (m : Sync A) (w : World) :
  completes (async_of_sync m) w 0 (of_outcome (m w)).1 (of_outcome (m w)).2.
Proof.
  unfold completes, call_and_run, async_of_sync.
  destruct (m w) as [[a|e] w']; simpl; (split; [reflexivity|]);
    intros k; apply run_settled; reflexivity.
Qed.

Lemma completes_from_then_ok {A B} (k : A -> AsyncFn B) n m :
  forall (p0 : Async A) w a w1 p w2,
    completes_from p0 w n (Resolved a) w1 ->
    completes (k a) w1 m p w2 ->
    completes_from (then_ p0 k) w (n + S m) p w2.
Proof.
  induction n as [|n IH]; intros p0 w a w1 p w2 [_ H0] [Hp Hk].
  - specialize (H0 0). simpl in H0. injection H0 as -> ->.
    split; [exact Hp|]. intros j. simpl. exact (Hk j).
  - destruct p0 as [a'|e|resume].
    + specialize (H0 0). rewrite run_settled in H0 by reflexivity.
      injection H0 as -> ->.
      split; [exact Hp|]. intros j. simpl.
      replace (n + S m + j) with (m + S (n + j)) by lia.
      exact (Hk (S (n + j))).
    + specialize (H0 0). rewrite run_settled in H0 by reflexivity. discriminate.
    + simpl in H0. simpl.
      destruct (resume w) as [p' w'] eqn:Hr.
      assert (Hfrom : completes_from p' w' n (Resolved a) w1) by (split; [reflexivity|exact H0]).
      destruct (IH p' w' a w1 p w2 Hfrom (conj Hp Hk)) as [_ Hrun].
      split; [exact Hp|]. intros j. simpl. rewrite Hr. exact (Hrun j).
Qed.

Lemma completes_from_then_rejected {A B} (k : A -> AsyncFn B) n :
  forall (p0 : Async A) w e w1,
    completes_from p0 w n (Rejected e) w1 ->
    completes_from (then_ p0 k) w (S n) (Rejected e) w1.
Proof.
  induction n as [|n IH]; intros p0 w e w1 [_ H0].
  - specialize (H0 0). simpl in H0. injection H0 as -> ->.
    split; [reflexivity|]. intros j. simpl. apply run_settled; reflexivity.
  - destruct p0 as [a'|e'|resume].
    + specialize (H0 0). rewrite run_settled in H0 by reflexivity. discriminate.
    + specialize (H0 0). rewrite run_settled in H0 by reflexivity.
      injection H0 as -> ->.
      split; [reflexivity|]. intros j. simpl. apply run_settled; reflexivity.
    + simpl in H0. destruct (resume w) as [p' w'] eqn:Hr.
      assert (Hfrom : completes_from p' w' n (Rejected e) w1) by (split; [reflexivity|exact H0]).
      destruct (IH p' w' e w1 Hfrom) as [_ Hrun].
      split; [reflexivity|]. intros j.
      change (S (S n) + j) with (S (S n + j)). simpl run at 1. simpl then_.
      unfold turn. rewrite Hr. exact (Hrun j).
Qed.

Lemma completes_await_ok {A B} (f : AsyncFn A) (k : A -> AsyncFn B) w n a w1 m p w2 :
  completes f w n (Resolved a) w1 ->
  completes (k a) w1 m p w2 ->
  completes (await f k) w (n + S m) p w2.
Proof.
  intros Hf Hk. apply completes_call. apply completes_call in Hf.
  unfold await. destruct (f w) as [p0 w0]; simpl in *.
  eapply completes_from_then_ok; eassumption.
Qed.

Lemma completes_await_rejected {A B} (f : AsyncFn A) (k : A -> AsyncFn B) w n e w1 :
  completes f w n (Rejected e) w1 ->
  completes (await f k) w (S n) (Rejected e) w1.
Proof.
  intros Hf. apply completes_call. apply completes_call in Hf.
  unfold await. destruct (f w) as [p0 w0]; simpl in *.
  apply completes_from_then_rejected; assumption.
Qed.

Lemma completes_await_rpc_ok {A B} (m : Sync A) (k : A -> AsyncFn B) w a w1 n p w2 :
  m w = (Ok a, w1) ->
  completes (k a) w1 n p w2 ->
  completes (await_rpc m k) w (S n) p w2.
Proof.
  intros Hm Hk. unfold await_rpc.
  change (S n) with (0 + S n). eapply completes_await_ok; [|exact Hk].
  pose proof (completes_async_of_sync m w) as H. rewrite Hm in H. exact H.
Qed.

Lemma completes_await_rpc_throw {A B} (m : Sync A) (k : A -> AsyncFn B) w e w1 :
  m w = (Throw e, w1) ->
  completes (await_rpc m k) w 1 (Rejected e) w1.
Proof.
  intros Hm. unfold await_rpc. apply completes_await_rejected.
  pose proof (completes_async_of_sync m w) as H. rewrite Hm in H. exact H.
Qed.

Lemma completes_weaken {A} (f : AsyncFn A) w n n' p w' :
  n <= n' -> completes f w n p w' -> completes f w n' p w'.
Proof.
  intros Hle [Hp H]. split; [exact Hp|]. intros m.
  replace (n' + m) with (n + (n' - n + m)) by lia. apply H.
Qed.

(** ** Topology assertions *)

Lemma ch_assertExchange_ok exchange w :
  exchange_assertable exchange w ->
  ch_assertExchange exchange "topic" true w =
  (Ok tt, mkWorld (<[exchange := ("topic", true)]> (exchanges w)) (queues w)
                  (bindings w) (writable w) (next_chan w)
                  (trace w ++ [EAssertExchange exchange "topic" true])).
Proof.
  destruct w as [xs qs bs wr nc tr]; unfold exchange_assertable, ch_assertExchange;
    simpl; intros [H|H]; rewrite H.
  - reflexivity.
  - rewrite decide_True by reflexivity. unfold emit; simpl.
    rewrite (insert_id xs exchange _ H). reflexivity.
Qed.

Lemma ch_assertQueue_ok queue w :
  queue_assertable queue w ->
  ch_assertQueue queue true w =
  (Ok tt, mkWorld (exchanges w) (<[queue := true]> (queues w))
                  (bindings w) (writable w) (next_chan w)
                  (trace w ++ [EAssertQueue queue true])).
Proof.
  destruct w as [xs qs bs wr nc tr]; unfold queue_assertable, ch_assertQueue;
    simpl; intros [H|H]; rewrite H.
  - reflexivity.
  - rewrite decide_True by reflexivity. unfold emit; simpl.
    rewrite (insert_id qs queue _ H). reflexivity.
Qed.

Lemma ch_bindQueue_ok queue exchange routingKey w :
  is_Some (queues w !! queue) -> is_Some (exchanges w !! exchange) ->
  ch_bindQueue queue exchange routingKey w =
  (Ok tt, mkWorld (exchanges w) (queues w)
                  ({[ (queue, exchange, routingKey) ]} ∪ bindings w)
                  (writable w) (next_chan w)
                  (trace w ++ [EBindQueue queue exchange routingKey])).
Proof.
  destruct w as [xs qs bs wr nc tr]; unfold ch_bindQueue; simpl.
  intros [d Hq] [x Hx]. rewrite Hq, Hx. reflexivity.
Qed.

Lemma Events_assertExchange_completes exchange w :
  completes (Events.assertExchange exchange) w 1
            (of_outcome (ch_assertExchange exchange "topic" true w)).1
            (of_outcome (ch_assertExchange exchange "topic" true w)).2.
Proof.
  unfold Events.assertExchange.
  destruct (ch_assertExchange exchange "topic" true w) as [[[]|e] w1] eqn:H1; simpl.
  - eapply completes_await_rpc_ok; [exact H1|apply completes_aret].
  - eapply completes_await_rpc_throw; exact H1.
Qed.

Lemma Events_assertQueue_completes exchange routingKey queue w :
  completes (Events.assertQueue exchange routingKey queue) w 3
            (of_outcome (assertQueue_methods exchange routingKey queue w)).1
            (of_outcome (assertQueue_methods exchange routingKey queue w)).2.
Proof.
  unfold Events.assertQueue, assertQueue_methods, mbind, Sync_bind, sbind.
  destruct (ch_assertExchange exchange "topic" true w) as [[[]|e] w1] eqn:H1; simpl.
  2: { apply (completes_weaken _ _ 1); [lia|].
       eapply completes_await_rpc_throw; exact H1. }
  eapply completes_await_rpc_ok; [exact H1|].
  destruct (ch_assertQueue queue true w1) as [[[]|e] w2] eqn:H2; simpl.
  2: { apply (completes_weaken _ _ 1); [lia|].
       eapply completes_await_rpc_throw; exact H2. }
  eapply completes_await_rpc_ok; [exact H2|].
  destruct (ch_bindQueue queue exchange routingKey w2) as [[[]|e] w3] eqn:H3; simpl.
  - eapply completes_await_rpc_ok; [exact H3|apply completes_aret].
  - eapply completes_await_rpc_throw; exact H3.
Qed.

(** The two clients declare topology by the same function. *)
Lemma Encrypt_assertQueue_eq exchange routingKey queue :
  Encrypt.assertQueue exchange routingKey queue
  = Events.assertQueue exchange routingKey queue.
Proof. reflexivity. Qed.

Lemma assertQueue_methods_ok exchange routingKey queue w :
  exchange_assertable exchange w -> queue_assertable queue w ->
  assertQueue_methods exchange routingKey queue w =
  (Ok tt, mkWorld (<[exchange := ("topic", true)]> (exchanges w))
                  (<[queue := true]> (queues w))
                  ({[ (queue, exchange, routingKey) ]} ∪ bindings w)
                  (writable w) (next_chan w)
                  (trace w ++ [EAssertExchange exchange "topic" true;
                               EAssertQueue queue true;
                               EBindQueue queue exchange routingKey])).
Proof.
  intros Hx Hq. unfold assertQueue_methods, mbind, Sync_bind, sbind.
  rewrite (ch_assertExchange_ok _ _ Hx).
  rewrite ch_assertQueue_ok by exact Hq. simpl.
  rewrite ch_bindQueue_ok; simpl.
  - rewrite <- !app_assoc. reflexivity.
  - rewrite lookup_insert_eq. eauto.
  - rewrite lookup_insert_eq. eauto.
Qed.

(** C8. [assertQueue(exchange, routingKey, queue)] issues, in this order,
    the assertion of the durable topic exchange, the assertion of the
    durable queue and the binding of the queue to the exchange by the
    routing key; whether or not the exchange was asserted before, the
    promise resolves with the exchange, the queue and the binding declared.
    Both clients. *)
Theorem assertQueue_asserts_exchange_then_queue_then_binding
        (exchange routingKey queue : string) (w : World) :
  exchange_assertable exchange w ->
  queue_assertable queue w ->
  let w' := mkWorld (<[exchange := ("topic", true)]> (exchanges w))
                    (<[queue := true]> (queues w))
                    ({[ (queue, exchange, routingKey) ]} ∪ bindings w)
                    (writable w) (next_chan w)
                    (trace w ++ [EAssertExchange exchange "topic" true;
                                 EAssertQueue queue true;
                                 EBindQueue queue exchange routingKey]) in
  (forall n, call_and_run (3 + n) (Events.assertQueue exchange routingKey queue) w
             = (Resolved tt, w')) /\
  (forall n, call_and_run (3 + n) (Encrypt.assertQueue exchange routingKey queue) w
             = (Resolved tt, w')) /\
  exchanges w' !! exchange = Some ("topic", true) /\
  queues w' !! queue = Some true /\
  (queue, exchange, routingKey) ∈ bindings w'.
Proof.
  intros Hx Hq w'.
  pose proof (Events_assertQueue_completes exchange routingKey queue w) as [_ Hrun].
  rewrite (assertQueue_methods_ok _ _ _ _ Hx Hq) in Hrun. simpl in Hrun.
  repeat split.
  - exact Hrun.
  - intros n. rewrite Encrypt_assertQueue_eq. exact (Hrun n).
  - subst w'; simpl. apply lookup_insert_eq.
  - subst w'; simpl. apply lookup_insert_eq.
  - subst w'; simpl. set_solver.
Qed.

Lemma assertQueue_asserts_exchange_then_queue_then_binding_witness :
  let w' := (call_and_run 3 (Events.assertQueue "orders" "created" "orders.created")
                          initial_world).2 in
  exchanges initial_world !! "orders" = None /\
  trace w' = [EAssertExchange "orders" "topic" true;
              EAssertQueue "orders.created" true;
              EBindQueue "orders.created" "orders" "created"] /\
  exchanges w' !! "orders" = Some ("topic", true) /\
  queues w' !! "orders.created" = Some true /\
  ("orders.created", "orders", "created") ∈ bindings w'.
Proof.
  assert (Hx : exchange_assertable "orders" initial_world) by (left; reflexivity).
  assert (Hq : queue_assertable "orders.created" initial_world) by (left; reflexivity).
  destruct (assertQueue_asserts_exchange_then_queue_then_binding
              "orders" "created" "orders.created" initial_world Hx Hq)
    as (Hrun & _ & He & Hqq & Hb).
  pose proof (Hrun 0) as H0. change (3 + 0) with 3 in H0.
  cbv zeta. rewrite H0. simpl.
  split; [reflexivity|]. split; [reflexivity|].
  split; [exact He|]. split; [exact Hqq|exact Hb].
Defined.

(** Asserting again does not change the topology. *)
Lemma ch_assertExchange_twice exchange w :
  let w1 := (ch_assertExchange exchange "topic" true w).2 in
  (ch_assertExchange exchange "topic" true w1).1
  = (ch_assertExchange exchange "topic" true w).1 /\
  topology (ch_assertExchange exchange "topic" true w1).2 = topology w1.
Proof.
  destruct w as [xs qs bs wr nc tr]. unfold ch_assertExchange, topology. simpl.
  destruct (xs !! exchange) as [d|] eqn:H.
  - destruct (decide (d = ("topic", true))) as [->|Hne]; simpl; rewrite H.
    + rewrite decide_True by reflexivity. simpl. auto.
    + rewrite decide_False by exact Hne. simpl. auto.
  - simpl. rewrite lookup_insert_eq. rewrite decide_True by reflexivity. simpl. auto.
Qed.

Lemma assertQueue_methods_twice exchange routingKey queue w :
  let w1 := (assertQueue_methods exchange routingKey queue w).2 in
  topology (assertQueue_methods exchange routingKey queue w1).2 = topology w1.
Proof.
  destruct w as [xs qs bs wr nc tr].
  unfold assertQueue_methods, mbind, Sync_bind, sbind,
    ch_assertExchange, ch_assertQueue, ch_bindQueue, topology, emit,
    set_exchanges, set_queues, set_bindings.
  simpl.
  destruct (xs !! exchange) as [d|] eqn:Hx.
  - destruct (decide (d = ("topic", true))) as [->|Hne]; simpl.
    2: { rewrite Hx. rewrite decide_False by exact Hne. reflexivity. }
    destruct (qs !! queue) as [dq|] eqn:Hq.
    + destruct (decide (dq = true)) as [->|Hnq]; simpl.
      2: { rewrite Hx. rewrite decide_True by reflexivity. simpl. rewrite Hq.
           rewrite decide_False by exact Hnq. reflexivity. }
      rewrite Hq, Hx. simpl. rewrite Hx. rewrite decide_True by reflexivity. simpl.
      rewrite Hq. rewrite decide_True by reflexivity. simpl. rewrite Hq, Hx. simpl.
      f_equal. apply set_eq; intros x; rewrite !elem_of_union; tauto.
    + simpl. rewrite lookup_insert_eq, Hx. simpl. rewrite Hx.
      rewrite decide_True by reflexivity. simpl. rewrite lookup_insert_eq.
      rewrite decide_True by reflexivity. simpl. rewrite lookup_insert_eq, Hx. simpl.
      f_equal. apply set_eq; intros x; rewrite !elem_of_union; tauto.
  - simpl. destruct (qs !! queue) as [dq|] eqn:Hq.
    + destruct (decide (dq = true)) as [->|Hnq]; simpl.
      2: { rewrite lookup_insert_eq. rewrite decide_True by reflexivity. simpl.
           rewrite Hq. rewrite decide_False by exact Hnq. reflexivity. }
      rewrite Hq, lookup_insert_eq. simpl. rewrite lookup_insert_eq.
      rewrite decide_True by reflexivity. simpl. rewrite Hq.
      rewrite decide_True by reflexivity. simpl. rewrite Hq, lookup_insert_eq. simpl.
      f_equal. apply set_eq; intros x; rewrite !elem_of_union; tauto.
    + simpl. rewrite !lookup_insert_eq. simpl. rewrite lookup_insert_eq.
      rewrite decide_True by reflexivity. simpl. rewrite lookup_insert_eq.
      rewrite decide_True by reflexivity. simpl. rewrite !lookup_insert_eq. simpl.
      f_equal. apply set_eq; intros x; rewrite !elem_of_union; tauto.
Qed.

(** C9. Topology assertion is idempotent: after [assertExchange] or
    [assertQueue] has run to completion, running the same assertion to
    completion again leaves the exchanges, queues and bindings as they
    were after the first run.  Both clients, every world, also when the
    broker rejects the assertion. *)
Theorem topology_assertion_idempotent
        (exchange routingKey queue : string) (w : World) (n m : nat) :
  let once (f : AsyncFn unit) := (call_and_run (3 + n) f w).2 in
  let twice (f : AsyncFn unit) := (call_and_run (3 + m) f (once f)).2 in
  topology (twice (Events.assertExchange exchange))
  = topology (once (Events.assertExchange exchange)) /\
  topology (twice (Events.assertQueue exchange routingKey queue))
  = topology (once (Events.assertQueue exchange routingKey queue)) /\
  topology (twice (Encrypt.assertExchange exchange))
  = topology (once (Encrypt.assertExchange exchange)) /\
  topology (twice (Encrypt.assertQueue exchange routingKey queue))
  = topology (once (Encrypt.assertQueue exchange routingKey queue)).
Proof.
  intros once twice.
  assert (HX : topology (twice (Events.assertExchange exchange))
               = topology (once (Events.assertExchange exchange))).
  { subst once twice. cbv beta.
    pose proof (Events_assertExchange_completes exchange w) as [_ H1].
    specialize (H1 (2 + n)). change (1 + (2 + n)) with (3 + n) in H1. rewrite H1.
    cbn [snd].
    set (w1 := (of_outcome (ch_assertExchange exchange "topic" true w)).2).
    pose proof (Events_assertExchange_completes exchange w1) as [_ H2].
    specialize (H2 (2 + m)). change (1 + (2 + m)) with (3 + m) in H2. rewrite H2.
    cbn [snd].
    assert (Hw1 : w1 = (ch_assertExchange exchange "topic" true w).2)
      by (subst w1; destruct (ch_assertExchange exchange "topic" true w) as [[?|?] ?];
          reflexivity).
    simpl.
    destruct (ch_assertExchange_twice exchange w) as [_ Ht]. cbv zeta in Ht.
    rewrite <- Hw1 in Ht.
    destruct (ch_assertExchange exchange "topic" true w1) as [[?|?] ?]; exact Ht. }
  assert (HQ : topology (twice (Events.assertQueue exchange routingKey queue))
               = topology (once (Events.assertQueue exchange routingKey queue))).
  { subst once twice. cbv beta.
    pose proof (Events_assertQueue_completes exchange routingKey queue w) as [_ H1].
    rewrite (H1 n). cbn [snd].
    set (w1 := (of_outcome (assertQueue_methods exchange routingKey queue w)).2).
    pose proof (Events_assertQueue_completes exchange routingKey queue w1) as [_ H2].
    rewrite (H2 m). cbn [snd].
    assert (Hw1 : w1 = (assertQueue_methods exchange routingKey queue w).2)
      by (subst w1;
          destruct (assertQueue_methods exchange routingKey queue w) as [[?|?] ?];
          reflexivity).
    simpl.
    pose proof (assertQueue_methods_twice exchange routingKey queue w) as Ht.
    cbv zeta in Ht. rewrite <- Hw1 in Ht.
    destruct (assertQueue_methods exchange routingKey queue w1) as [[?|?] ?]; exact Ht. }
  repeat split; assumption.
Qed.

(** ** Envelopes and the filters *)

Lemma perform_ack listener d rt :
  perform (ch_ack listener (fields_deliveryTag d)) rt = (Ok tt, acked listener d rt).
Proof. reflexivity. Qed.

Lemma Events_onMessage_emitted JSON_parse queue listener d m :
  Events.onMessage JSON_parse queue listener (Some d) = Emitted m ->
  exists sourceData,
    JSON_parse (content d) = Ok sourceData /\
    m = Events.mkSubscriberMessage (fields_exchange d) (fields_routingKey d) queue
          sourceData sourceData
          (perform (ch_ack listener (fields_deliveryTag d))).
Proof.
  unfold Events.onMessage. destruct (JSON_parse (content d)) as [v|e]; [|discriminate].
  intros [= <-]. eauto.
Qed.

Lemma Encrypt_onMessage_emitted JSON_parse JSON_stringify listener d m :
  Encrypt.onMessage JSON_parse JSON_stringify listener (Some d) = Emitted m ->
  exists sourceData,
    JSON_parse (content d) = Ok sourceData /\
    Encrypt.exchange m = fields_exchange d /\
    Encrypt.routingKey m = fields_routingKey d /\
    Encrypt.sourceData m = sourceData /\
    Encrypt.data m = sourceData /\
    Encrypt.ackMessage m = perform (ch_ack listener (fields_deliveryTag d)) /\
    Encrypt.throwError m = fun err =>
      await (Encrypt.assertQueue "error" (constructor_name err) "errors") (fun _ =>
      await (Encrypt.publish JSON_stringify "error" (constructor_name err)
               (Encrypt.errData (fields_exchange d) (fields_routingKey d)
                                sourceData err) None) (fun _ =>
      aret tt)).
Proof.
  unfold Encrypt.onMessage. destruct (JSON_parse (content d)) as [v|e]; [|discriminate].
  intros [= <-]. exists v. simpl. repeat split; reflexivity.
Qed.

(** What [filterOrAck] does with any envelope, whatever its
    [ackMessage]. *)
Lemma Events_filterOrAck_unfold p (m : Events.SubscriberMessage) rt :
  Events.filterOrAck p m rt =
  if p (Events.data m) then (Ok (Some m), rt)
  else match Events.ackMessage m rt with
       | (Ok _, rt') => (Ok None, rt')
       | (Throw e, rt') => (Throw e, rt')
       end.
Proof.
  unfold Events.filterOrAck, filter, jbind, mbind, Js_bind, jbind, mret, Js_ret, jret.
  destruct (p (Events.data m)); [reflexivity|].
  destruct (Events.ackMessage m rt) as [[[]|e] rt']; reflexivity.
Qed.

Lemma Encrypt_filterOrAck_unfold p (m : Encrypt.ConsumeMessage) rt :
  Encrypt.filterOrAck p m rt =
  if p (Encrypt.data m) then (Ok (Some m), rt)
  else match Encrypt.ackMessage m rt with
       | (Ok _, rt') => (Ok None, rt')
       | (Throw e, rt') => (Throw e, rt')
       end.
Proof.
  unfold Encrypt.filterOrAck, filter, jbind, mbind, Js_bind, jbind, mret, Js_ret, jret.
  destruct (p (Encrypt.data m)); [reflexivity|].
  destruct (Encrypt.ackMessage m rt) as [[[]|e] rt']; reflexivity.
Qed.

(** C4. For an envelope emitted by [consume], whatever typed payload it
    carries by now, and a predicate over the typed payload, [filterOrAck]
    passes the envelope through unchanged and does nothing else when the
    predicate holds; when it fails, the filter acknowledges the delivery,
    drops the envelope, raises no error and starts no error forwarding
    (the acknowledgment is the only method issued and no promise is left
    floating).  Both clients. *)
Theorem filterOrAck_passes_or_acks_and_drops
        (JSON_parse : string -> Outcome json) (JSON_stringify : json -> string)
        (filterByMessageData : json -> bool)
        (queue : string) (listener : Chan) (d : Delivery)
        (m : Events.SubscriberMessage) (m' : Encrypt.ConsumeMessage)
        (typed : json) (rt : Runtime) :
  Events.onMessage JSON_parse queue listener (Some d) = Emitted m ->
  Encrypt.onMessage JSON_parse JSON_stringify listener (Some d) = Emitted m' ->
  let envelope := Events.set_data typed m in
  let envelope' := Encrypt.set_data typed m' in
  Events.filterOrAck filterByMessageData envelope rt
  = (if filterByMessageData typed then (Ok (Some envelope), rt)
     else (Ok None, acked listener d rt)) /\
  Encrypt.filterOrAck filterByMessageData envelope' rt
  = (if filterByMessageData typed then (Ok (Some envelope'), rt)
     else (Ok None, acked listener d rt)).
Proof.
  intros Hm Hm' envelope envelope'.
  apply Events_onMessage_emitted in Hm as (v & _ & Hm).
  apply Encrypt_onMessage_emitted in Hm' as (v' & _ & _ & _ & _ & _ & Hack & _).
  split.
  - rewrite Events_filterOrAck_unfold. subst envelope m. reflexivity.
  - rewrite Encrypt_filterOrAck_unfold. subst envelope'. simpl.
    rewrite Hack, perform_ack. reflexivity.
Qed.

Lemma Events_attemptMessageData_unfold {Schema : Type}
      (Joi_attempt : Schema -> json -> Outcome json) schema onError
      (m : Events.SubscriberMessage) rt :
  Events.attemptMessageData Joi_attempt schema onError m rt =
  match Joi_attempt schema (Events.data m) with
  | Ok v => (Ok (Some (Events.set_data v m)), rt)
  | Throw error =>
      match Events.ackMessage m rt with
      | (Ok _, rt1) =>
          match onError error m rt1 with
          | (Ok _, rt2) => (Ok None, rt2)
          | (Throw e, rt2) => (Throw e, rt2)
          end
      | (Throw e, rt1) => (Throw e, rt1)
      end
  end.
Proof.
  unfold Events.attemptMessageData, filter, jbind, mbind, Js_bind, jbind,
    mret, Js_ret, jret.
  destruct (Joi_attempt schema (Events.data m)) as [v|error]; [reflexivity|].
  destruct (Events.ackMessage m rt) as [[[]|e] rt1]; [|reflexivity].
  destruct (onError error m rt1) as [[[]|e] rt2]; reflexivity.
Qed.

Lemma Encrypt_assertData_unfold {Schema : Type}
      (Joi_attempt : Schema -> json -> Outcome json) schema
      (m : Encrypt.ConsumeMessage) rt :
  Encrypt.assertData Joi_attempt schema m rt =
  match Joi_attempt schema (Encrypt.data m) with
  | Ok v => (Ok (Some (Encrypt.set_data v m)), rt)
  | Throw error =>
      match Encrypt.ackMessage m rt with
      | (Ok _, rt1) =>
          (Ok None,
           mkRuntime (Encrypt.throwError m error (world rt1)).2
                     (floating rt1 ++ [(Encrypt.throwError m error (world rt1)).1]))
      | (Throw e, rt1) => (Throw e, rt1)
      end
  end.
Proof.
  unfold Encrypt.assertData, filter, jbind, mbind, Js_bind, jbind,
    mret, Js_ret, jret, float.
  destruct (Joi_attempt schema (Encrypt.data m)) as [v|error]; [reflexivity|].
  destruct (Encrypt.ackMessage m rt) as [[[]|e] rt1]; [|reflexivity].
  destruct (Encrypt.throwError m error (world rt1)) as [p w1]; reflexivity.
Qed.

(** C2. For an envelope emitted by [consume] whose typed payload fails the
    schema, the schema filter first acknowledges the delivery, then hands
    the failure to the error path, and the envelope does not pass:
    [attemptMessageData] calls the handler with the error and the envelope
    in the runtime that already holds the acknowledgment, and yields no
    envelope; [assertData] calls [throwError] with the error in the world
    that already holds the acknowledgment, leaves its promise floating and
    drops the envelope. *)
Theorem schema_failure_acks_hands_over_and_drops
        (JSON_parse : string -> Outcome json) (JSON_stringify : json -> string)
        {Schema : Type} (Joi_attempt : Schema -> json -> Outcome json)
        (schema : Schema) (onError : Events.ErrorHandler)
        (queue : string) (listener : Chan) (d : Delivery)
        (m : Events.SubscriberMessage) (m' : Encrypt.ConsumeMessage)
        (typed : json) (error : Error) (rt : Runtime) :
  Events.onMessage JSON_parse queue listener (Some d) = Emitted m ->
  Encrypt.onMessage JSON_parse JSON_stringify listener (Some d) = Emitted m' ->
  Joi_attempt schema typed = Throw error ->
  let envelope := Events.set_data typed m in
  let envelope' := Encrypt.set_data typed m' in
  Events.attemptMessageData Joi_attempt schema onError envelope rt
  = match onError error envelope (acked listener d rt) with
    | (Ok _, rt') => (Ok None, rt')
    | (Throw e, rt') => (Throw e, rt')
    end /\
  (forall kept,
      (Events.attemptMessageData Joi_attempt schema onError envelope rt).1
      <> Ok (Some kept)) /\
  Encrypt.assertData Joi_attempt schema envelope' rt
  = (Ok None,
     mkRuntime
       (Encrypt.throwError m' error (world (acked listener d rt))).2
       (floating rt ++ [(Encrypt.throwError m' error (world (acked listener d rt))).1])).
Proof.
  intros Hm Hm' Hjoi envelope envelope'.
  apply Events_onMessage_emitted in Hm as (v & _ & Hm).
  apply Encrypt_onMessage_emitted in Hm' as (v' & _ & _ & _ & _ & _ & Hack & _).
  assert (Hbasic :
    Events.attemptMessageData Joi_attempt schema onError envelope rt
    = match onError error envelope (acked listener d rt) with
      | (Ok _, rt') => (Ok None, rt')
      | (Throw e, rt') => (Throw e, rt')
      end).
  { rewrite Events_attemptMessageData_unfold. subst envelope m. simpl.
    rewrite Hjoi. reflexivity. }
  split; [exact Hbasic|]. split.
  - intros kept. rewrite Hbasic.
    destruct (onError error envelope (acked listener d rt)) as [[[]|e] rt'];
      discriminate.
  - rewrite Encrypt_assertData_unfold. subst envelope'. simpl.
    rewrite Hjoi, Hack, perform_ack. reflexivity.
Qed.

(** ** Promises that never acknowledge *)

Lemma acks_app listener tag (a b : list Event) :
  acks listener tag (a ++ b) = acks listener tag a + acks listener tag b.
Proof. unfold acks. rewrite List.filter_app, length_app. reflexivity. Qed.

Lemma grows_refl listener tag w : grows_without_ack listener tag w w.
Proof. exists []. rewrite app_nil_r. auto. Qed.

Lemma grows_trans listener tag w1 w2 w3 :
  grows_without_ack listener tag w1 w2 ->
  grows_without_ack listener tag w2 w3 ->
  grows_without_ack listener tag w1 w3.
Proof.
  intros (e1 & H1 & A1) (e2 & H2 & A2). exists (e1 ++ e2)%list.
  rewrite H2, H1, <- app_assoc, acks_app, A1, A2. auto.
Qed.

Lemma grows_emit listener tag ev w :
  is_ack listener tag ev = false ->
  grows_without_ack listener tag w (emit ev w).
Proof.
  intros H. exists [ev]. split; [reflexivity|]. unfold acks. simpl. rewrite H. reflexivity.
Qed.

Section KeepsLemmas.
Context (R : World -> World -> Prop)
        (R_refl : forall w, R w w)
        (R_trans : forall w1 w2 w3, R w1 w2 -> R w2 w3 -> R w1 w3).

Lemma run_keeps {A} (n : nat) :
  forall (p : Async A) w, Keeps R p -> R w (run n p w).2 /\ Keeps R (run n p w).1.
Proof.
  induction n as [|n IH]; intros p w Hp; [split; [apply R_refl|exact Hp]|].
  destruct Hp as [a|e|resume HR HK].
  - change (run (S n) (Resolved a) w) with (run n (Resolved a) w).
    apply IH; constructor.
  - change (run (S n) (@Rejected A e) w) with (run n (@Rejected A e) w).
    apply IH; constructor.
  - simpl. specialize (HR w). specialize (HK w).
    destruct (resume w) as [p' w']; simpl in *.
    destruct (IH p' w' HK) as [H1 H2]. split; [|exact H2].
    eapply R_trans; eassumption.
Qed.

Lemma keeps_then_ {A B} (p : Async A) (k : A -> AsyncFn B) :
  Keeps R p -> (forall a, KeepsFn R (k a)) -> Keeps R (then_ p k).
Proof.
  intros Hp Hk. induction Hp as [a|e|resume HR HK IH]; simpl.
  - constructor; intros w; apply (Hk a w).
  - constructor; intros w; simpl; [apply R_refl|constructor].
  - constructor; intros w; specialize (HR w); specialize (IH w);
      destruct (resume w) as [p' w']; simpl in *; assumption.
Qed.

Lemma keepsfn_aret {A} (a : A) : KeepsFn R (aret a).
Proof. intros w; split; [apply R_refl|constructor]. Qed.

Lemma keepsfn_async_of_sync {A} (m : Sync A) :
  (forall w, R w (m w).2) -> KeepsFn R (async_of_sync m).
Proof.
  intros Hm w. unfold async_of_sync. specialize (Hm w).
  destruct (m w) as [[a|e] w']; simpl in *; split; try assumption; constructor.
Qed.

Lemma keepsfn_await {A B} (f : AsyncFn A) (k : A -> AsyncFn B) :
  KeepsFn R f -> (forall a, KeepsFn R (k a)) -> KeepsFn R (await f k).
Proof.
  intros Hf Hk w. unfold await. destruct (Hf w) as [H1 H2].
  destruct (f w) as [p w']; simpl in *. split; [exact H1|].
  apply keeps_then_; assumption.
Qed.

Lemma keepsfn_await_rpc {A B} (m : Sync A) (k : A -> AsyncFn B) :
  (forall w, R w (m w).2) -> (forall a, KeepsFn R (k a)) -> KeepsFn R (await_rpc m k).
Proof.
  intros Hm Hk. apply keepsfn_await; [apply keepsfn_async_of_sync|]; assumption.
Qed.
End KeepsLemmas.

Lemma ch_assertExchange_grows listener tag exchange kind durable w :
  grows_without_ack listener tag w (ch_assertExchange exchange kind durable w).2.
Proof.
  unfold ch_assertExchange. simpl.
  destruct (exchanges w !! exchange) as [d|];
    [destruct (decide (d = (kind, durable)))|]; simpl;
    apply (grows_emit listener tag (EAssertExchange exchange kind durable)); reflexivity.
Qed.

Lemma ch_assertQueue_grows listener tag queue durable w :
  grows_without_ack listener tag w (ch_assertQueue queue durable w).2.
Proof.
  unfold ch_assertQueue. simpl.
  destruct (queues w !! queue) as [d|];
    [destruct (decide (d = durable))|]; simpl;
    apply (grows_emit listener tag (EAssertQueue queue durable)); reflexivity.
Qed.

Lemma ch_bindQueue_grows listener tag queue exchange routingKey w :
  grows_without_ack listener tag w (ch_bindQueue queue exchange routingKey w).2.
Proof.
  unfold ch_bindQueue. simpl.
  destruct (queues w !! queue) as [d|]; [destruct (exchanges w !! exchange) as [x|]|];
    simpl;
    apply (grows_emit listener tag (EBindQueue queue exchange routingKey)); reflexivity.
Qed.

Lemma ch_publish_grows listener tag exchange routingKey body priority w :
  grows_without_ack listener tag w (ch_publish exchange routingKey body priority w).2.
Proof.
  apply (grows_emit listener tag (EPublish exchange routingKey body priority)).
  reflexivity.
Qed.

Lemma assertQueue_keeps listener tag exchange routingKey queue :
  KeepsFn (grows_without_ack listener tag)
          (Encrypt.assertQueue exchange routingKey queue).
Proof.
  unfold Encrypt.assertQueue.
  apply keepsfn_await_rpc;
    [apply grows_refl | intros w; apply ch_assertExchange_grows | intros _].
  apply keepsfn_await_rpc;
    [apply grows_refl | intros w; apply ch_assertQueue_grows | intros _].
  apply keepsfn_await_rpc;
    [apply grows_refl | intros w; apply ch_bindQueue_grows | intros _].
  apply keepsfn_aret. apply grows_refl.
Qed.

Lemma publish_keeps listener tag JSON_stringify exchange routingKey data priority :
  KeepsFn (grows_without_ack listener tag)
          (Encrypt.publish JSON_stringify exchange routingKey data priority).
Proof.
  unfold Encrypt.publish. apply keepsfn_async_of_sync. intros w.
  apply (ch_publish_grows listener tag).
Qed.

Lemma throwError_keeps JSON_parse JSON_stringify listener' d m listener tag err :
  Encrypt.onMessage JSON_parse JSON_stringify listener' (Some d) = Emitted m ->
  KeepsFn (grows_without_ack listener tag) (Encrypt.throwError m err).
Proof.
  intros Hm. apply Encrypt_onMessage_emitted in Hm as (v & _ & _ & _ & _ & _ & _ & ->).
  apply keepsfn_await; [apply grows_refl | apply assertQueue_keeps |].
  intros _.
  apply keepsfn_await; [apply grows_refl | apply publish_keeps |].
  intros _. apply keepsfn_aret. apply grows_refl.
Qed.

(** ** The dead-letter path *)

Lemma ch_assertExchange_trace exchange kind durable w :
  trace (ch_assertExchange exchange kind durable w).2
  = (trace w ++ [EAssertExchange exchange kind durable])%list.
Proof.
  unfold ch_assertExchange. simpl.
  destruct (exchanges w !! exchange) as [d|];
    [destruct (decide (d = (kind, durable)))|]; reflexivity.
Qed.

(** The call of [assertQueue] issues the exchange assertion and suspends. *)
Lemma assertQueue_call exchange routingKey queue w :
  (Encrypt.assertQueue exchange routingKey queue w).2
  = (ch_assertExchange exchange "topic" true w).2 /\
  settled (Encrypt.assertQueue exchange routingKey queue w).1 = false.
Proof.
  unfold Encrypt.assertQueue, await_rpc, await, async_of_sync.
  destruct (ch_assertExchange exchange "topic" true w) as [[[]|e] w1]; simpl; auto.
Qed.

Lemma settled_then_ {A B} (p : Async A) (k : A -> AsyncFn B) :
  settled (then_ p k) = false.
Proof. destruct p; reflexivity. Qed.

Lemma throwError_call JSON_parse JSON_stringify listener d m err w :
  Encrypt.onMessage JSON_parse JSON_stringify listener (Some d) = Emitted m ->
  (Encrypt.throwError m err w).2 = (ch_assertExchange "error" "topic" true w).2 /\
  settled (Encrypt.throwError m err w).1 = false.
Proof.
  intros Hm. apply Encrypt_onMessage_emitted in Hm as (v & _ & _ & _ & _ & _ & _ & ->).
  unfold await.
  destruct (assertQueue_call "error" (constructor_name err) "errors" w) as [Hw _].
  destruct (Encrypt.assertQueue "error" (constructor_name err) "errors" w) as [p0 w1].
  simpl in *. split; [exact Hw|apply settled_then_].
Qed.

Lemma throwError_completes JSON_parse JSON_stringify listener d m err w :
  Encrypt.onMessage JSON_parse JSON_stringify listener (Some d) = Emitted m ->
  exchange_assertable "error" w ->
  queue_assertable "errors" w ->
  completes (Encrypt.throwError m err) w 5 (Resolved tt)
    (mkWorld (<["error" := ("topic", true)]> (exchanges w))
             (<["errors" := true]> (queues w))
             ({[ ("errors", "error", constructor_name err) ]} ∪ bindings w)
             (writable w) (next_chan w)
             (trace w ++ [EAssertExchange "error" "topic" true;
                          EAssertQueue "errors" true;
                          EBindQueue "errors" "error" (constructor_name err);
                          EPublish "error" (constructor_name err)
                            (JSON_stringify
                               (Encrypt.errData (fields_exchange d) (fields_routingKey d)
                                                (Encrypt.sourceData m) err))
                            None])).
Proof.
  intros Hm Hx Hq.
  apply Encrypt_onMessage_emitted in Hm as (v & _ & _ & _ & Hsd & _ & _ & ->).
  rewrite Hsd.
  pose proof (Events_assertQueue_completes "error" (constructor_name err) "errors" w)
    as Hc.
  rewrite (assertQueue_methods_ok _ _ _ _ Hx Hq) in Hc. simpl in Hc.
  change 5 with (3 + S 1).
  eapply completes_await_ok; [exact Hc|].
  change 1 with (0 + S 0).
  eapply completes_await_ok; [|apply completes_aret].
  unfold Encrypt.publish.
  match goal with
  | |- completes (async_of_sync ?m) ?w0 _ _ _ =>
      pose proof (completes_async_of_sync m w0) as Hp
  end.
  simpl in Hp. unfold emit in Hp; simpl in Hp. rewrite <- app_assoc in Hp. exact Hp.
Qed.

Lemma throwError_rejected JSON_parse JSON_stringify listener d m err w x :
  Encrypt.onMessage JSON_parse JSON_stringify listener (Some d) = Emitted m ->
  exchanges w !! "error" = Some x ->
  x <> ("topic", true) ->
  completes (Encrypt.throwError m err) w 2 (Rejected (PRECONDITION_FAILED "error"))
            (emit (EAssertExchange "error" "topic" true) w).
Proof.
  intros Hm Hx Hne.
  apply Encrypt_onMessage_emitted in Hm as (v & _ & _ & _ & _ & _ & _ & ->).
  apply completes_await_rejected. unfold Encrypt.assertQueue.
  apply completes_await_rpc_throw.
  unfold ch_assertExchange. simpl. rewrite Hx.
  rewrite decide_False by exact Hne. reflexivity.
Qed.

(** C6. [throwError] of an envelope emitted by [consume], run to
    completion where the broker accepts the reserved topology, asserts the
    durable topic exchange [error], asserts the durable queue [errors],
    binds the queue by the error's type tag, and publishes to exchange
    [error] with the type tag as routing key, without priority, the record
    holding the delivery's exchange and routing key, the source payload,
    the type tag and the error message.  The topology is declared by the
    call itself, also when none of it existed before. *)
Theorem throwError_publishes_error_record_to_reserved_topology
        (JSON_parse : string -> Outcome json) (JSON_stringify : json -> string)
        (listener : Chan) (d : Delivery) (m : Encrypt.ConsumeMessage)
        (err : Error) (w : World) :
  Encrypt.onMessage JSON_parse JSON_stringify listener (Some d) = Emitted m ->
  exchange_assertable "error" w ->
  queue_assertable "errors" w ->
  let errType := constructor_name err in
  let record :=
    JObj [ ("sourceExchange", JStr (fields_exchange d));
           ("sourceRoutingKey", JStr (fields_routingKey d));
           ("sourceData", Encrypt.sourceData m);
           ("errType", JStr errType);
           ("errMessage", JStr (message_of err)) ] in
  let w' :=
    mkWorld (<["error" := ("topic", true)]> (exchanges w))
            (<["errors" := true]> (queues w))
            ({[ ("errors", "error", errType) ]} ∪ bindings w)
            (writable w) (next_chan w)
            (trace w ++ [EAssertExchange "error" "topic" true;
                         EAssertQueue "errors" true;
                         EBindQueue "errors" "error" errType;
                         EPublish "error" errType (JSON_stringify record) None]) in
  (forall n, call_and_run (5 + n) (Encrypt.throwError m err) w = (Resolved tt, w')) /\
  exchanges w' !! "error" = Some ("topic", true) /\
  queues w' !! "errors" = Some true /\
  ("errors", "error", errType) ∈ bindings w'.
Proof.
  intros Hm Hx Hq errType record w'.
  destruct (throwError_completes _ _ _ _ _ err w Hm Hx Hq) as [_ Hrun].
  split; [exact Hrun|]. subst w'; simpl.
  split; [apply lookup_insert_eq|]. split; [apply lookup_insert_eq|].
  apply elem_of_union; left; apply elem_of_singleton; reflexivity.
Qed.

(** C10. When [assertData] meets an envelope whose typed payload fails
    validation, the acknowledgment is issued before the first method of
    the error publication, the filter returns with the promise of
    [throwError] still pending, and the acknowledgment stays issued
    whatever the promise does on later turns; where the broker rejects the
    assertion of the [error] exchange the promise is rejected, nothing is
    published, and the delivery is acknowledged all the same. *)
Theorem assertData_acknowledges_before_unawaited_dead_letter
        (JSON_parse : string -> Outcome json) (JSON_stringify : json -> string)
        {Schema : Type} (Joi_attempt : Schema -> json -> Outcome json)
        (schema : Schema) (listener : Chan) (d : Delivery)
        (m : Encrypt.ConsumeMessage) (typed : json) (error : Error) (rt : Runtime) :
  Encrypt.onMessage JSON_parse JSON_stringify listener (Some d) = Emitted m ->
  Joi_attempt schema typed = Throw error ->
  let ack := EAck listener (fields_deliveryTag d) in
  let p := (Encrypt.throwError m error (emit ack (world rt))).1 in
  let w1 := (Encrypt.throwError m error (emit ack (world rt))).2 in
  Encrypt.assertData Joi_attempt schema (Encrypt.set_data typed m) rt
  = (Ok None, mkRuntime w1 (floating rt ++ [p])) /\
  settled p = false /\
  trace w1 = (trace (world rt) ++ [ack; EAssertExchange "error" "topic" true])%list /\
  (forall n, exists evs,
      trace (run n p w1).2 = (trace (world rt) ++ ack :: evs)%list) /\
  (forall x, exchanges (world rt) !! "error" = Some x -> x <> ("topic", true) ->
             forall n, run (2 + n) p w1 = (Rejected (PRECONDITION_FAILED "error"), w1)).
Proof.
  intros Hm Hjoi ack p w1.
  destruct (throwError_call _ _ _ _ _ error (emit ack (world rt)) Hm) as [Hw1 Hp].
  assert (Htr : trace w1
                = (trace (world rt) ++ [ack; EAssertExchange "error" "topic" true])%list).
  { subst w1. rewrite Hw1, ch_assertExchange_trace. simpl.
    rewrite <- app_assoc. reflexivity. }
  split; [|split; [exact Hp|split; [exact Htr|split]]].
  - rewrite Encrypt_assertData_unfold. simpl. rewrite Hjoi.
    destruct (Encrypt_onMessage_emitted _ _ _ _ _ Hm)
      as (v & _ & _ & _ & _ & _ & Hack & _).
    rewrite Hack, perform_ack. reflexivity.
  - intros n.
    pose proof (throwError_keeps _ _ _ _ _ listener (fields_deliveryTag d) error Hm
                  (emit ack (world rt))) as [_ HK].
    destruct (run_keeps _ (grows_refl listener (fields_deliveryTag d))
                (grows_trans listener (fields_deliveryTag d)) n p w1 HK)
      as [(evs & Hevs & _) _].
    exists (EAssertExchange "error" "topic" true :: evs).
    rewrite Hevs, Htr, <- app_assoc. reflexivity.
  - intros x Hx Hne n.
    assert (Hx' : exchanges (emit ack (world rt)) !! "error" = Some x) by exact Hx.
    destruct (throwError_rejected _ _ _ _ _ error _ x Hm Hx' Hne) as [_ Hrun].
    specialize (Hrun n). unfold call_and_run in Hrun.
    fold p w1 in Hrun.
    assert (Hw : w1 = emit (EAssertExchange "error" "topic" true) (emit ack (world rt))).
    { subst w1. rewrite Hw1. unfold ch_assertExchange. simpl. rewrite Hx.
      rewrite decide_False by exact Hne. reflexivity. }
    rewrite <- Hw in Hrun.
    destruct (Encrypt.throwError m error (emit ack (world rt))) as [p0 w0].
    exact Hrun.
Qed.

(** ** Acknowledgments along a pipeline *)

Lemma acks_acked listener d rt :
  acks listener (fields_deliveryTag d) (trace (world (acked listener d rt)))
  = acks listener (fields_deliveryTag d) (trace (world rt)) + 1.
Proof.
  unfold acked, emit. simpl. rewrite acks_app. f_equal.
  unfold acks. simpl. rewrite Nat.eqb_refl, N.eqb_refl. reflexivity.
Qed.

Lemma pipe_cons {T} (op : T -> Js (option T)) rest (v : T) rt :
  pipe (op :: rest) v rt =
  match op v rt with
  | (Ok (Some v'), rt') => pipe rest v' rt'
  | (Ok None, rt') => (Ok None, rt')
  | (Throw e, rt') => (Throw e, rt')
  end.
Proof.
  simpl. unfold jbind. destruct (op v rt) as [[[v'|]|e] rt']; reflexivity.
Qed.

Lemma Events_pipe_acks {Schema : Type} (Joi_attempt : Schema -> json -> Outcome json)
      listener d operators :
  Forall (Events_stage Joi_attempt listener (fields_deliveryTag d)) operators ->
  forall m rt,
    Events.ackMessage m = perform (ch_ack listener (fields_deliveryTag d)) ->
    acks listener (fields_deliveryTag d) (trace (world (pipe operators m rt).2))
    = acks listener (fields_deliveryTag d) (trace (world rt))
      + acks_added (pipe operators m rt).1.
Proof.
  induction 1 as [|op rest Hop Hrest IH]; intros m rt Hack.
  - simpl. lia.
  - rewrite pipe_cons. destruct Hop as [p|schema onError Hh].
    + rewrite Events_filterOrAck_unfold, Hack, perform_ack.
      destruct (p (Events.data m)); [apply IH; exact Hack|].
      simpl. apply acks_acked.
    + rewrite Events_attemptMessageData_unfold, Hack, perform_ack.
      destruct (Joi_attempt schema (Events.data m)) as [v|error].
      * apply IH. exact Hack.
      * specialize (Hh error m (acked listener d rt)).
        destruct (onError error m (acked listener d rt)) as [[[]|e] rt2];
          simpl in *; rewrite Hh; apply acks_acked.
Qed.

Lemma Encrypt_pipe_acks {Schema : Type} (Joi_attempt : Schema -> json -> Outcome json)
      listener d operators :
  Forall (Encrypt_stage Joi_attempt) operators ->
  forall (m : Encrypt.ConsumeMessage) rt,
    Encrypt.ackMessage m = perform (ch_ack listener (fields_deliveryTag d)) ->
    (forall err, KeepsFn (grows_without_ack listener (fields_deliveryTag d))
                         (Encrypt.throwError m err)) ->
    acks listener (fields_deliveryTag d) (trace (world (pipe operators m rt).2))
    = acks listener (fields_deliveryTag d) (trace (world rt))
      + acks_added (pipe operators m rt).1 /\
    (forall e, (pipe operators m rt).1 <> Throw e) /\
    exists ps, floating (pipe operators m rt).2 = (floating rt ++ ps)%list /\
               Forall (Keeps (grows_without_ack listener (fields_deliveryTag d))) ps.
Proof.
  induction 1 as [|op rest Hop Hrest IH]; intros m rt Hack Hthrow.
  - simpl. split; [lia|]. split; [discriminate|].
    exists []. rewrite app_nil_r. auto.
  - rewrite pipe_cons. destruct Hop as [p|schema].
    + rewrite Encrypt_filterOrAck_unfold, Hack, perform_ack.
      destruct (p (Encrypt.data m)); [apply IH; assumption|].
      simpl. split; [apply acks_acked|]. split; [discriminate|].
      exists []. rewrite app_nil_r. auto.
    + rewrite Encrypt_assertData_unfold, Hack, perform_ack.
      destruct (Joi_attempt schema (Encrypt.data m)) as [v|error].
      * apply IH; [exact Hack|exact Hthrow].
      * destruct (Hthrow error (world (acked listener d rt)))
          as [(evs & Hevs & Hnone) HK].
        cbn [fst snd world floating acks_added]. split; [|split; [discriminate|]].
        -- rewrite Hevs, acks_app, Hnone, acks_acked. lia.
        -- eexists; split; [reflexivity|]. constructor; [exact HK|constructor].
Qed.

(** C1 (as the code has it). For an envelope emitted by [consume], a
    pipeline of the filter stages acknowledges the delivery exactly once
    when a stage drops or fails the envelope and not at all when the
    envelope passes through, so at most once on every path; in the
    dead-letter client the promises the pipeline leaves floating never
    acknowledge.  In the basic client this holds for error handlers that
    do not acknowledge themselves.  The acknowledgment action itself is
    not one-shot: every invocation, in any runtime, issues an
    acknowledgment of the delivery and returns normally. *)
Theorem pipeline_acknowledges_at_most_once
        (JSON_parse : string -> Outcome json) (JSON_stringify : json -> string)
        {Schema : Type} (Joi_attempt : Schema -> json -> Outcome json)
        (queue : string) (listener : Chan) (d : Delivery)
        (operators : list (Events.SubscriberMessage -> Js (option Events.SubscriberMessage)))
        (operators' : list (Encrypt.ConsumeMessage -> Js (option Encrypt.ConsumeMessage)))
        (m : Events.SubscriberMessage) (m' : Encrypt.ConsumeMessage) (rt : Runtime) :
  Events.onMessage JSON_parse queue listener (Some d) = Emitted m ->
  Encrypt.onMessage JSON_parse JSON_stringify listener (Some d) = Emitted m' ->
  Forall (Events_stage Joi_attempt listener (fields_deliveryTag d)) operators ->
  Forall (Encrypt_stage Joi_attempt) operators' ->
  let count (rt : Runtime) := acks listener (fields_deliveryTag d) (trace (world rt)) in
  count (pipe operators m rt).2 = count rt + acks_added (pipe operators m rt).1 /\
  count (pipe operators' m' rt).2 = count rt + acks_added (pipe operators' m' rt).1 /\
  acks_added (pipe operators m rt).1 <= 1 /\
  acks_added (pipe operators' m' rt).1 <= 1 /\
  (exists ps, floating (pipe operators' m' rt).2 = (floating rt ++ ps)%list /\
              Forall (Keeps (grows_without_ack listener (fields_deliveryTag d))) ps) /\
  (forall rt0, Events.ackMessage m rt0 = (Ok tt, acked listener d rt0)) /\
  (forall rt0, Encrypt.ackMessage m' rt0 = (Ok tt, acked listener d rt0)).
Proof.
  intros Hm Hm' Hops Hops' count.
  pose proof (fun err => throwError_keeps _ _ _ _ _ listener (fields_deliveryTag d) err Hm')
    as Hthrow.
  apply Events_onMessage_emitted in Hm as (v & _ & ->).
  apply Encrypt_onMessage_emitted in Hm' as (v' & _ & _ & _ & _ & _ & Hack & _).
  destruct (Encrypt_pipe_acks Joi_attempt listener d operators' Hops' m' rt Hack Hthrow)
    as (Hcount & _ & Hps).
  split; [apply (Events_pipe_acks Joi_attempt listener d operators Hops); reflexivity|].
  split; [exact Hcount|].
  split; [destruct (pipe operators _ rt).1 as [[?|]|?]; simpl; lia|].
  split; [destruct (pipe operators' m' rt).1 as [[?|]|?]; simpl; lia|].
  split; [exact Hps|].
  split; [reflexivity|].
  intros rt0. rewrite Hack. apply perform_ack.
Qed.

(** ** Deliveries that do not parse *)

(** C5 (as the code has it). A delivery whose body [JSON.parse] rejects
    makes the delivery callback raise the parse error before any envelope
    is built: nothing is emitted to the subscribers, in either client, and
    the callback of [consumeErrors] behaves the same. *)
Theorem unparseable_delivery_raises_and_emits_nothing
        (JSON_parse : string -> Outcome json) (JSON_stringify : json -> string)
        (queue : string) (listener : Chan) (d : Delivery) (e : Error) :
  JSON_parse (content d) = Throw e ->
  Events.onMessage JSON_parse queue listener (Some d) = Raised e /\
  Encrypt.onMessage JSON_parse JSON_stringify listener (Some d) = Raised e /\
  Encrypt.onErrMessage JSON_parse listener (Some d) = Raised e.
Proof.
  intros H. unfold Events.onMessage, Encrypt.onMessage, Encrypt.onErrMessage.
  rewrite H. auto.
Qed.

(** ** Publishing and replay *)

(** C7 (the dead-letter client does not report). [publish] of the basic
    client returns the boolean of the channel-level send; [publish] of the
    dead-letter client issues the same send and resolves to no value,
    whatever the write buffer answered. *)
Theorem dead_letter_publish_discards_send_result
        (JSON_stringify : json -> string)
        (exchange routingKey : string) (data : json) (priority : option Z)
        (w : World) (n : nat) :
  Events.publish JSON_stringify exchange routingKey data priority w
  = (Ok (writable w),
     emit (EPublish exchange routingKey (JSON_stringify data) priority) w) /\
  call_and_run n (Encrypt.publish JSON_stringify exchange routingKey data priority) w
  = (Resolved tt,
     emit (EPublish exchange routingKey (JSON_stringify data) priority) w).
Proof.
  split; [reflexivity|].
  unfold call_and_run, Encrypt.publish, async_of_sync. simpl.
  apply run_settled. reflexivity.
Qed.

(** C3. For an error record delivered by [consumeErrors], [replyData]
    publishes the recorded payload to the exchange and routing key the
    record holds in [sourceExchange] and [sourceRoutingKey], with the
    priority given to the call; the exchange and routing key of the error
    delivery itself (the [error] exchange) are not used. *)
Theorem replyData_republishes_to_recorded_origin
        (JSON_parse : string -> Outcome json) (JSON_stringify : json -> string)
        (listener : Chan) (d : Delivery) (errMessage : Encrypt.ErrMessage)
        (members : list (string * json)) (sx srk : string) (payload : json)
        (priority : option Z) (w : World) (n : nat) :
  JSON_parse (content d) = Ok (JObj members) ->
  assoc "sourceExchange" members = Some (JStr sx) ->
  assoc "sourceRoutingKey" members = Some (JStr srk) ->
  assoc "sourceData" members = Some payload ->
  Encrypt.onErrMessage JSON_parse listener (Some d) = Emitted errMessage ->
  Encrypt.exchange errMessage = fields_exchange d /\
  Encrypt.sourceExchange errMessage = sx /\
  Encrypt.sourceRoutingKey errMessage = srk /\
  Encrypt.data errMessage = payload /\
  call_and_run n (Encrypt.replyData JSON_stringify errMessage priority) w
  = (Resolved tt, emit (EPublish sx srk (JSON_stringify payload) priority) w).
Proof.
  intros Hparse Hsx Hsrk Hdata Hem.
  unfold Encrypt.onErrMessage in Hem. rewrite Hparse in Hem.
  unfold Encrypt.castErrMessage in Hem. rewrite Hsx, Hsrk, Hdata in Hem.
  simpl in Hem.
  destruct (Encrypt.as_string (assoc "errMessage" members)) as [msg|]; [|discriminate].
  destruct (Encrypt.as_string (assoc "errType" members)) as [ty|]; [|discriminate].
  simpl in Hem. injection Hem as <-. simpl.
  repeat (split; [reflexivity|]).
  unfold call_and_run, Encrypt.replyData, Encrypt.publish, async_of_sync. simpl.
  apply run_settled. reflexivity.
Qed.

(** ** Concrete runs *)

Example order_delivery_body :
  Sample.JSON_parse (content order_delivery) = Ok order_payload.
Proof. vm_compute. reflexivity. Qed.

Example bad_delivery_fails_schema :
  Sample.JSON_parse (content bad_delivery) = Ok bad_payload /\
  Sample.Joi_attempt order_schema bad_payload
  = Throw (Sample.ValidationError (Sample.quote "id" ++ " is not of the required type")).
Proof. vm_compute. auto. Qed.

(** The envelope the callback emits for a delivery whose body parses. *)
Ltac emitted_by parsed :=
  unfold Events.onMessage, Encrypt.onMessage; cbv beta iota;
  rewrite parsed; reflexivity.

Lemma pipeline_acknowledges_at_most_once_witness :
  exists m m',
    Events.onMessage Sample.JSON_parse "orders.created" 1 (Some bad_delivery) = Emitted m /\
    Encrypt.onMessage Sample.JSON_parse Sample.JSON_stringify 1 (Some bad_delivery)
    = Emitted m' /\
    acks 1 8 (trace (world
      (pipe [Events.filterOrAck (fun _ => true);
             Events.attemptMessageData Sample.Joi_attempt order_schema ignore_error]
            m initial_runtime).2)) = 1 /\
    acks 1 8 (trace (world
      (pipe [Encrypt.filterOrAck (fun _ => true);
             Encrypt.assertData Sample.Joi_attempt order_schema]
            m' initial_runtime).2)) = 1.
Proof.
  eexists. eexists.
  split; [emitted_by (proj1 bad_delivery_fails_schema)|].
  split; [emitted_by (proj1 bad_delivery_fails_schema)|].
  match goal with
  | |- acks _ _ (trace (world (pipe ?ops ?m _).2)) = _ /\
       acks _ _ (trace (world (pipe ?ops' ?m' _).2)) = _ =>
      destruct (pipeline_acknowledges_at_most_once
                  Sample.JSON_parse Sample.JSON_stringify Sample.Joi_attempt
                  "orders.created" 1 bad_delivery ops ops' m m' initial_runtime)
        as (H1 & H2 & _)
  end.
  - reflexivity.
  - reflexivity.
  - constructor; [apply Events_stage_filterOrAck|].
    constructor; [|constructor].
    apply Events_stage_attemptMessageData. intros error m rt. reflexivity.
  - constructor; [apply Encrypt_stage_filterOrAck|].
    constructor; [apply Encrypt_stage_assertData|constructor].
  - split; [exact H1|exact H2].
Defined.

(** C1, counterexample. The acknowledgment of an envelope emitted by
    [consume] is not guarded: invoked twice, it issues two acknowledgments
    of the same delivery and the second call returns normally.  Both
    clients. *)
Lemma second_acknowledgment_is_performed :
  exists m m',
    Events.onMessage Sample.JSON_parse "orders.created" 1 (Some order_delivery)
    = Emitted m /\
    Encrypt.onMessage Sample.JSON_parse Sample.JSON_stringify 1 (Some order_delivery)
    = Emitted m' /\
    (Events.ackMessage m ;; Events.ackMessage m) initial_runtime
    = (Ok tt, mkRuntime (mkWorld ∅ ∅ ∅ true 0 [EAck 1 7; EAck 1 7]) []) /\
    (Encrypt.ackMessage m' ;; Encrypt.ackMessage m') initial_runtime
    = (Ok tt, mkRuntime (mkWorld ∅ ∅ ∅ true 0 [EAck 1 7; EAck 1 7]) []) /\
    acks 1 7 [EAck 1 7; EAck 1 7] = 2.
Proof.
  eexists. eexists.
  split; [emitted_by order_delivery_body|].
  split; [emitted_by order_delivery_body|].
  repeat split; reflexivity.
Qed.

Lemma schema_failure_acks_hands_over_and_drops_witness :
  exists m m',
    Events.onMessage Sample.JSON_parse "orders.created" 1 (Some bad_delivery) = Emitted m /\
    Encrypt.onMessage Sample.JSON_parse Sample.JSON_stringify 1 (Some bad_delivery)
    = Emitted m' /\
    Events.attemptMessageData Sample.Joi_attempt order_schema ignore_error
                              (Events.set_data bad_payload m) initial_runtime
    = (Ok None, acked 1 bad_delivery initial_runtime) /\
    (Encrypt.assertData Sample.Joi_attempt order_schema
                        (Encrypt.set_data bad_payload m') initial_runtime).1 = Ok None /\
    trace (world (Encrypt.assertData Sample.Joi_attempt order_schema
                                     (Encrypt.set_data bad_payload m')
                                     initial_runtime).2)
    = [EAck 1 8; EAssertExchange "error" "topic" true].
Proof.
  eexists. eexists.
  split; [emitted_by (proj1 bad_delivery_fails_schema)|].
  split; [emitted_by (proj1 bad_delivery_fails_schema)|].
  match goal with
  | |- Events.attemptMessageData _ _ _ (Events.set_data _ ?m) _ = _ /\
       (Encrypt.assertData _ _ (Encrypt.set_data _ ?m') _).1 = _ /\ _ =>
      destruct (schema_failure_acks_hands_over_and_drops
                  Sample.JSON_parse Sample.JSON_stringify Sample.Joi_attempt
                  order_schema ignore_error "orders.created" 1 bad_delivery m m'
                  bad_payload
                  (Sample.ValidationError
                     (Sample.quote "id" ++ " is not of the required type"))
                  initial_runtime)
        as (H1 & _ & H3)
  end.
  - reflexivity.
  - reflexivity.
  - vm_compute. reflexivity.
  - split; [exact H1|]. rewrite H3. split; reflexivity.
Defined.

Lemma filterOrAck_passes_or_acks_and_drops_witness :
  exists m m',
    Events.onMessage Sample.JSON_parse "orders.created" 1 (Some bad_delivery) = Emitted m /\
    Encrypt.onMessage Sample.JSON_parse Sample.JSON_stringify 1 (Some bad_delivery)
    = Emitted m' /\
    Events.filterOrAck is_one (Events.set_data bad_payload m) initial_runtime
    = (Ok None, acked 1 bad_delivery initial_runtime) /\
    Encrypt.filterOrAck is_one (Encrypt.set_data bad_payload m') initial_runtime
    = (Ok None, acked 1 bad_delivery initial_runtime).
Proof.
  eexists. eexists.
  split; [emitted_by (proj1 bad_delivery_fails_schema)|].
  split; [emitted_by (proj1 bad_delivery_fails_schema)|].
  match goal with
  | |- Events.filterOrAck _ (Events.set_data _ ?m) _ = _ /\
       Encrypt.filterOrAck _ (Encrypt.set_data _ ?m') _ = _ =>
      exact (filterOrAck_passes_or_acks_and_drops
               Sample.JSON_parse Sample.JSON_stringify is_one
               "orders.created" 1 bad_delivery m m' bad_payload initial_runtime
               eq_refl eq_refl)
  end.
Defined.

Lemma unparseable_delivery_raises_and_emits_nothing_witness :
  Events.onMessage Sample.JSON_parse "orders.created" 1 (Some garbled_delivery)
  = Raised (SyntaxError "Unexpected token or end of JSON input") /\
  Encrypt.onMessage Sample.JSON_parse Sample.JSON_stringify 1 (Some garbled_delivery)
  = Raised (SyntaxError "Unexpected token or end of JSON input") /\
  Encrypt.onErrMessage Sample.JSON_parse 1 (Some garbled_delivery)
  = Raised (SyntaxError "Unexpected token or end of JSON input").
Proof.
  apply (unparseable_delivery_raises_and_emits_nothing
           Sample.JSON_parse Sample.JSON_stringify "orders.created" 1 garbled_delivery).
  vm_compute. reflexivity.
Defined.

(** C5, counterexample. The body [oops] is not JSON; the delivery
    callback of [consume] emits no envelope for it, in either client. *)
Lemma unparseable_delivery_is_not_passed_through :
  (forall v, Sample.JSON_parse (content garbled_delivery) <> Ok v) /\
  (forall m, Events.onMessage Sample.JSON_parse "orders.created" 1
                              (Some garbled_delivery) <> Emitted m) /\
  (forall m, Encrypt.onMessage Sample.JSON_parse Sample.JSON_stringify 1
                               (Some garbled_delivery) <> Emitted m).
Proof.
  split; [|split]; intros x H; vm_compute in H; discriminate H.
Qed.

Lemma throwError_publishes_error_record_to_reserved_topology_witness :
  exists m,
    Encrypt.onMessage Sample.JSON_parse Sample.JSON_stringify 1 (Some bad_delivery)
    = Emitted m /\
    exchanges initial_world !! "error" = None /\
    queues initial_world !! "errors" = None /\
    let w' := (call_and_run 5
                 (Encrypt.throwError m (Sample.ValidationError "id must be a number"))
                 initial_world).2 in
    trace w'
    = [EAssertExchange "error" "topic" true;
       EAssertQueue "errors" true;
       EBindQueue "errors" "error" "ValidationError";
       EPublish "error" "ValidationError"
         (Sample.JSON_stringify
            (Encrypt.errData "orders" "created" bad_payload
                             (Sample.ValidationError "id must be a number")))
         None] /\
    exchanges w' !! "error" = Some ("topic", true) /\
    queues w' !! "errors" = Some true /\
    ("errors", "error", "ValidationError") ∈ bindings w'.
Proof.
  eexists. split; [emitted_by (proj1 bad_delivery_fails_schema)|].
  split; [reflexivity|]. split; [reflexivity|].
  match goal with
  | |- let _ := (call_and_run 5 (Encrypt.throwError ?m ?err) _).2 in _ =>
      destruct (throwError_publishes_error_record_to_reserved_topology
                  Sample.JSON_parse Sample.JSON_stringify 1 bad_delivery m err
                  initial_world eq_refl (or_introl eq_refl) (or_introl eq_refl))
        as (Hrun & Hx & Hq & Hb)
  end.
  pose proof (Hrun 0) as H0. change (5 + 0) with 5 in H0.
  cbv zeta. rewrite H0. cbn [snd trace].
  split; [reflexivity|]. split; [exact Hx|]. split; [exact Hq|exact Hb].
Defined.

Lemma replyData_republishes_to_recorded_origin_witness :
  Sample.JSON_parse (content error_delivery) = Ok bad_record /\
  call_and_run 0
    (Encrypt.replyData Sample.JSON_stringify
       (Encrypt.mkErrMessage
          (Encrypt.mkAbstractConsumeMessage "error" "ValidationError"
             bad_payload bad_payload (perform (ch_ack 2 3)))
          "id is not of the required type" "ValidationError" "orders" "created")
       (Some 5%Z))
    initial_world
  = (Resolved tt,
     emit (EPublish "orders" "created" (Sample.JSON_stringify bad_payload) (Some 5%Z))
          initial_world).
Proof.
  assert (Hparse : Sample.JSON_parse (content error_delivery) = Ok bad_record)
    by (vm_compute; reflexivity).
  split; [exact Hparse|].
  refine (proj2 (proj2 (proj2 (proj2
    (replyData_republishes_to_recorded_origin
       Sample.JSON_parse Sample.JSON_stringify 2 error_delivery _ _
       "orders" "created" bad_payload (Some 5%Z) initial_world 0
       Hparse eq_refl eq_refl eq_refl _))))).
  unfold Encrypt.onErrMessage. cbn [content error_delivery] in Hparse |- *.
  rewrite Hparse. reflexivity.
Defined.

Lemma event_loop_single (n : nat) (p : Async unit) (w : World) :
  event_loop n (mkRuntime w [p]) = mkRuntime (run n p w).2 [(run n p w).1].
Proof.
  revert p w; induction n as [|n IH]; intros p w; [reflexivity|].
  simpl. unfold event_loop_turn. simpl.
  destruct (turn p w) as [p' w']. apply IH.
Qed.

Lemma assertData_acknowledges_before_unawaited_dead_letter_witness :
  exists m,
    Encrypt.onMessage Sample.JSON_parse Sample.JSON_stringify 1 (Some bad_delivery)
    = Emitted m /\
    let rt := mkRuntime fanout_error_world [] in
    let r := Encrypt.assertData Sample.Joi_attempt order_schema
                                (Encrypt.set_data bad_payload m) rt in
    r.1 = Ok None /\
    trace (world r.2) = [EAck 1 8; EAssertExchange "error" "topic" true] /\
    floating (event_loop 2 r.2) = [Rejected (PRECONDITION_FAILED "error")] /\
    trace (world (event_loop 2 r.2)) = [EAck 1 8; EAssertExchange "error" "topic" true].
Proof.
  eexists. split; [emitted_by (proj1 bad_delivery_fails_schema)|].
  match goal with
  | |- let rt := ?rt0 in
       let r := Encrypt.assertData _ _ (Encrypt.set_data _ ?m) _ in _ =>
      destruct (assertData_acknowledges_before_unawaited_dead_letter
                  Sample.JSON_parse Sample.JSON_stringify Sample.Joi_attempt
                  order_schema 1 bad_delivery m bad_payload
                  (Sample.ValidationError
                     (Sample.quote "id" ++ " is not of the required type"))
                  rt0 eq_refl)
        as (Hret & _ & Htrace & _ & Hrej)
  end.
  - vm_compute. reflexivity.
  - specialize (Hrej ("fanout", true) (lookup_singleton_eq _ _) ltac:(discriminate) 0).
    cbv zeta. rewrite Hret. cbn [fst snd world floating app] in Hrej, Htrace |- *.
    rewrite event_loop_single. change (2 + 0) with 2 in Hrej. rewrite Hrej.
    cbn [fst snd world floating].
    split; [reflexivity|]. split; [exact Htrace|]. split; [reflexivity|exact Htrace].
Defined.

(** * Further properties of the clients *)

(** ** Envelopes that pass *)

Lemma Events_pipe_passes {Schema : Type} (Joi_attempt : Schema -> json -> Outcome json)
      operators :
  Forall (Events_operator Joi_attempt) operators ->
  forall m rt m' rt',
    pipe operators m rt = (Ok (Some m'), rt') ->
    rt' = rt /\
    Events.exchange m' = Events.exchange m /\
    Events.routingKey m' = Events.routingKey m /\
    Events.queue m' = Events.queue m /\
    Events.sourceData m' = Events.sourceData m /\
    Events.ackMessage m' = Events.ackMessage m.
Proof.
  induction 1 as [|op rest Hop Hrest IH]; intros m rt m' rt' Hrun.
  - simpl in Hrun. injection Hrun as <- <-. repeat split.
  - rewrite pipe_cons in Hrun. destruct Hop as [p|schema onError].
    + rewrite Events_filterOrAck_unfold in Hrun.
      destruct (p (Events.data m)); [exact (IH _ _ _ _ Hrun)|].
      destruct (Events.ackMessage m rt) as [[[]|e] rt1]; discriminate.
    + rewrite Events_attemptMessageData_unfold in Hrun.
      destruct (Joi_attempt schema (Events.data m)) as [v|error].
      * apply IH in Hrun. exact Hrun.
      * destruct (Events.ackMessage m rt) as [[[]|e] rt1]; [|discriminate].
        destruct (onError error m rt1) as [[[]|e] rt2]; discriminate.
Qed.

Lemma Encrypt_pipe_passes {Schema : Type} (Joi_attempt : Schema -> json -> Outcome json)
      operators :
  Forall (Encrypt_stage Joi_attempt) operators ->
  forall (m : Encrypt.ConsumeMessage) rt (m' : Encrypt.ConsumeMessage) rt',
    pipe operators m rt = (Ok (Some m'), rt') ->
    rt' = rt /\
    Encrypt.exchange m' = Encrypt.exchange m /\
    Encrypt.routingKey m' = Encrypt.routingKey m /\
    Encrypt.sourceData m' = Encrypt.sourceData m /\
    Encrypt.ackMessage m' = Encrypt.ackMessage m /\
    Encrypt.throwError m' = Encrypt.throwError m.
Proof.
  induction 1 as [|op rest Hop Hrest IH]; intros m rt m' rt' Hrun.
  - simpl in Hrun. injection Hrun as <- <-. repeat split.
  - rewrite pipe_cons in Hrun. destruct Hop as [p|schema].
    + rewrite Encrypt_filterOrAck_unfold in Hrun.
      destruct (p (Encrypt.data m)); [exact (IH _ _ _ _ Hrun)|].
      destruct (Encrypt.ackMessage m rt) as [[[]|e] rt1]; discriminate.
    + rewrite Encrypt_assertData_unfold in Hrun.
      destruct (Joi_attempt schema (Encrypt.data m)) as [v|error].
      * apply IH in Hrun. exact Hrun.
      * destruct (Encrypt.ackMessage m rt) as [[[]|e] rt1]; discriminate.
Qed.

(** X1. An envelope that comes out of a pipeline of filter stages has cost
    nothing: the runtime is the one the pipeline started in (no channel
    method was issued, no handler ran, no promise was started), and the
    envelope still carries the exchange, routing key, queue, source payload
    and acknowledgment (and [throwError]) it entered with; only the typed
    payload may have been replaced.  Both clients, every envelope, every
    error handler. *)
Theorem passing_envelope_is_untouched
        {Schema : Type} (Joi_attempt : Schema -> json -> Outcome json)
        (operators : list (Events.SubscriberMessage -> Js (option Events.SubscriberMessage)))
        (operators' : list (Encrypt.ConsumeMessage -> Js (option Encrypt.ConsumeMessage)))
        (m out : Events.SubscriberMessage) (m' out' : Encrypt.ConsumeMessage)
        (rt rt1 rt1' : Runtime) :
  Forall (Events_operator Joi_attempt) operators ->
  Forall (Encrypt_stage Joi_attempt) operators' ->
  pipe operators m rt = (Ok (Some out), rt1) ->
  pipe operators' m' rt = (Ok (Some out'), rt1') ->
  (rt1 = rt /\
   Events.exchange out = Events.exchange m /\
   Events.routingKey out = Events.routingKey m /\
   Events.queue out = Events.queue m /\
   Events.sourceData out = Events.sourceData m /\
   Events.ackMessage out = Events.ackMessage m) /\
  (rt1' = rt /\
   Encrypt.exchange out' = Encrypt.exchange m' /\
   Encrypt.routingKey out' = Encrypt.routingKey m' /\
   Encrypt.sourceData out' = Encrypt.sourceData m' /\
   Encrypt.ackMessage out' = Encrypt.ackMessage m' /\
   Encrypt.throwError out' = Encrypt.throwError m').
Proof.
  intros Hops Hops' Hrun Hrun'. split.
  - exact (Events_pipe_passes Joi_attempt operators Hops _ _ _ _ Hrun).
  - exact (Encrypt_pipe_passes Joi_attempt operators' Hops' _ _ _ _ Hrun').
Qed.

(** X2. Two predicate filters in a row are one predicate filter on the
    conjunction: same outcome, same runtime, hence the same single
    acknowledgment when either predicate fails.  Both clients, every
    envelope. *)
Theorem filterOrAck_twice_is_conjunction
        (p q : json -> bool)
        (m : Events.SubscriberMessage) (m' : Encrypt.ConsumeMessage) (rt : Runtime) :
  pipe [Events.filterOrAck p; Events.filterOrAck q] m rt
  = Events.filterOrAck (fun data => p data && q data) m rt /\
  pipe [Encrypt.filterOrAck p; Encrypt.filterOrAck q] m' rt
  = Encrypt.filterOrAck (fun data => p data && q data) m' rt.
Proof.
  split.
  - rewrite pipe_cons, !Events_filterOrAck_unfold.
    destruct (p (Events.data m)); cbv beta iota.
    + rewrite pipe_cons, Events_filterOrAck_unfold.
      destruct (q (Events.data m)); [reflexivity|].
      destruct (Events.ackMessage m rt) as [[[]|e] rt1]; reflexivity.
    + destruct (Events.ackMessage m rt) as [[[]|e] rt1]; reflexivity.
  - rewrite pipe_cons, !Encrypt_filterOrAck_unfold.
    destruct (p (Encrypt.data m')); cbv beta iota.
    + rewrite pipe_cons, Encrypt_filterOrAck_unfold.
      destruct (q (Encrypt.data m')); [reflexivity|].
      destruct (Encrypt.ackMessage m' rt) as [[[]|e] rt1]; reflexivity.
    + destruct (Encrypt.ackMessage m' rt) as [[[]|e] rt1]; reflexivity.
Qed.

(** ** Startup and subscriptions *)

(** X3. [connect] opens the publisher channel first and then awaits the
    caller's topology setup: when [onConnected] resolves, [connect]
    resolves with the client in exactly the world the setup left; when
    [onConnected] is rejected, [connect] is rejected with the same error
    and no client is returned.  Both clients. *)
Theorem connect_awaits_onConnected
        (onConnected : AsyncFn unit) (w w1 : World) (n : nat) (p : Async unit) :
  let publisher := next_chan w in
  let opened := set_next_chan (S publisher) (emit (ECreateChannel publisher) w) in
  completes onConnected opened n p w1 ->
  match p with
  | Resolved _ =>
      completes (Events.connect onConnected) w (S (n + 1)) (Resolved publisher) w1 /\
      completes (Encrypt.connect onConnected) w (S (n + 1)) (Resolved publisher) w1
  | Rejected e =>
      completes (Events.connect onConnected) w (S (S n)) (Rejected e) w1 /\
      completes (Encrypt.connect onConnected) w (S (S n)) (Rejected e) w1
  | Suspended _ => False
  end.
Proof.
  intros publisher opened Hc.
  assert (Hopen : createChannel w = (Ok publisher, opened)) by reflexivity.
  destruct p as [[]|e|resume].
  - assert (H : completes (Events.connect onConnected) w (S (n + 1))
                          (Resolved publisher) w1).
    { unfold Events.connect. eapply completes_await_rpc_ok; [exact Hopen|].
      eapply completes_await_ok; [exact Hc|apply completes_aret]. }
    split; exact H.
  - assert (H : completes (Events.connect onConnected) w (S (S n)) (Rejected e) w1).
    { unfold Events.connect. eapply completes_await_rpc_ok; [exact Hopen|].
      apply completes_await_rejected. exact Hc. }
    split; exact H.
  - destruct Hc as [Hs _]. discriminate.
Qed.

Lemma consume_channel_completes queue prefetch w :
  is_Some (queues w !! queue) ->
  completes (Events.consume_channel queue prefetch) w 3 (Resolved tt)
    (mkWorld (exchanges w) (queues w) (bindings w) (writable w) (S (next_chan w))
             (trace w ++ [ECreateChannel (next_chan w);
                          EPrefetch (next_chan w) prefetch;
                          EConsume (next_chan w) queue])).
Proof.
  intros [d Hq]. unfold Events.consume_channel.
  eapply completes_await_rpc_ok; [reflexivity|].
  eapply completes_await_rpc_ok; [reflexivity|].
  eapply completes_await_rpc_ok; [|apply completes_aret].
  unfold ch_consume. simpl. rewrite Hq. unfold emit; simpl.
  rewrite <- !app_assoc. reflexivity.
Qed.

Lemma consume_channel_rejected queue prefetch w :
  queues w !! queue = None ->
  completes (Events.consume_channel queue prefetch) w 3 (Rejected (NOT_FOUND queue))
    (mkWorld (exchanges w) (queues w) (bindings w) (writable w) (S (next_chan w))
             (trace w ++ [ECreateChannel (next_chan w);
                          EPrefetch (next_chan w) prefetch;
                          EConsume (next_chan w) queue])).
Proof.
  intros Hq. unfold Events.consume_channel.
  eapply completes_await_rpc_ok; [reflexivity|].
  eapply completes_await_rpc_ok; [reflexivity|].
  eapply completes_await_rpc_throw.
  unfold ch_consume. simpl. rewrite Hq. unfold emit; simpl.
  rewrite <- !app_assoc. reflexivity.
Qed.

(** X4. [consume(queue, prefetch)] returns to its caller at once and
    without error, having opened a channel of its own; on the following
    turns that channel gets the prefetch limit (200 when none is given)
    and then the subscription to the queue, and nothing else is issued and
    no topology is declared.  Both clients. *)
Theorem consume_subscribes_on_its_own_channel
        (queue : string) (prefetch : option Z) (rt : Runtime) (n : nat) :
  is_Some (queues (world rt) !! queue) ->
  let w := world rt in
  let listener := next_chan w in
  let p := (Events.consume_channel queue (default 200%Z prefetch) w).1 in
  let opened := set_next_chan (S listener) (emit (ECreateChannel listener) w) in
  Events.consume queue prefetch rt = (Ok tt, mkRuntime opened (floating rt ++ [p])) /\
  Encrypt.consume queue prefetch rt = (Ok tt, mkRuntime opened (floating rt ++ [p])) /\
  run (3 + n) p opened
  = (Resolved tt,
     mkWorld (exchanges w) (queues w) (bindings w) (writable w) (S listener)
             (trace w ++ [ECreateChannel listener;
                          EPrefetch listener (default 200%Z prefetch);
                          EConsume listener queue])).
Proof.
  intros Hq w listener p opened.
  destruct (consume_channel_completes queue (default 200%Z prefetch) w Hq) as [_ Hrun].
  specialize (Hrun n). unfold call_and_run in Hrun.
  split; [reflexivity|]. split; [reflexivity|]. exact Hrun.
Qed.

(** X5. Two subscriptions started one after the other run on two
    different channels, and each prefetch limit is set on the channel of
    its own subscription. *)
Theorem two_subscriptions_use_two_channels
        (queue1 queue2 : string) (prefetch1 prefetch2 : option Z) (w : World) :
  is_Some (queues w !! queue1) ->
  is_Some (queues w !! queue2) ->
  let first := next_chan w in
  let second := S (next_chan w) in
  let started := (Events.consume queue1 prefetch1 ;; Events.consume queue2 prefetch2)
                   (mkRuntime w []) in
  started.1 = Ok tt /\
  event_loop 3 started.2
  = mkRuntime
      (mkWorld (exchanges w) (queues w) (bindings w) (writable w) (S second)
               (trace w ++ [ECreateChannel first;
                            ECreateChannel second;
                            EPrefetch first (default 200%Z prefetch1);
                            EPrefetch second (default 200%Z prefetch2);
                            EConsume first queue1;
                            EConsume second queue2]))
      [Resolved tt; Resolved tt].
Proof.
  intros [d1 H1] [d2 H2] first second started.
  split; [reflexivity|].
  subst started. destruct w as [xs qs bs wr nc tr]. simpl in H1, H2.
  unfold event_loop, event_loop_turn. simpl.
  unfold await_rpc, await, async_of_sync, ch_consume, emit, set_next_chan. simpl.
  rewrite H1. simpl. rewrite H2. simpl.
  rewrite <- !app_assoc. reflexivity.
Qed.

(** ** The error queue *)

(** X6. [consumeErrors] does not declare the [errors] queue.  On a broker
    where the queue does not exist yet the call still returns normally,
    but its subscription is rejected on a later turn; once one
    [throwError] has run to completion the queue exists and the same call
    subscribes. *)
Theorem consumeErrors_subscribes_only_once_the_queue_exists
        (JSON_parse : string -> Outcome json) (JSON_stringify : json -> string)
        (listener : Chan) (d : Delivery) (m : Encrypt.ConsumeMessage) (err : Error)
        (prefetch : option Z) (w : World) (n : nat) :
  Encrypt.onMessage JSON_parse JSON_stringify listener (Some d) = Emitted m ->
  exchange_assertable "error" w ->
  queues w !! "errors" = None ->
  let count := default 200%Z prefetch in
  let w' := (call_and_run 5 (Encrypt.throwError m err) w).2 in
  (Encrypt.consumeErrors prefetch (mkRuntime w [])).1 = Ok tt /\
  (call_and_run (3 + n) (Encrypt.consumeErrors_channel count) w).1
  = Rejected (NOT_FOUND "errors") /\
  (call_and_run (3 + n) (Encrypt.consumeErrors_channel count) w').1 = Resolved tt.
Proof.
  intros Hm Hx Hq count w'.
  split; [reflexivity|]. split.
  - destruct (consume_channel_rejected "errors" count w Hq) as [_ Hrun].
    change (Encrypt.consumeErrors_channel count) with (Events.consume_channel "errors" count).
    rewrite (Hrun n). reflexivity.
  - destruct (throwError_completes _ _ _ _ _ err w Hm Hx (or_introl Hq)) as [_ Hdone].
    specialize (Hdone 0). change (5 + 0) with 5 in Hdone.
    subst w'. rewrite Hdone. cbn [snd].
    match goal with
    | |- (call_and_run _ _ ?w1).1 = _ =>
        assert (Hsome : is_Some (queues w1 !! "errors"))
          by (simpl; rewrite lookup_insert_eq; eauto);
        destruct (consume_channel_completes "errors" count w1 Hsome) as [_ Hrun]
    end.
    change (Encrypt.consumeErrors_channel count) with (Events.consume_channel "errors" count).
    rewrite (Hrun n). reflexivity.
Qed.

(** X7. The record [throwError] writes comes back whole from the error
    queue.  When the codec reads back what it wrote for that record, the
    callback of [consumeErrors] emits, for a delivery carrying the
    published body, an error record with the failing delivery's exchange
    and routing key, the error's type tag and message and the source
    payload; its [exchange] and [routingKey] are those of the error
    delivery; and [replyData] publishes the source payload to the failing
    delivery's exchange and routing key. *)
Theorem error_record_round_trip
        (JSON_parse : string -> Outcome json) (JSON_stringify : json -> string)
        (listener listener' : Chan) (d d' : Delivery) (m : Encrypt.ConsumeMessage)
        (err : Error) (priority : option Z) (w : World) (n : nat) :
  Encrypt.onMessage JSON_parse JSON_stringify listener (Some d) = Emitted m ->
  let record := Encrypt.errData (fields_exchange d) (fields_routingKey d)
                                (Encrypt.sourceData m) err in
  JSON_parse (JSON_stringify record) = Ok record ->
  content d' = JSON_stringify record ->
  exists errMessage : Encrypt.ErrMessage,
    Encrypt.onErrMessage JSON_parse listener' (Some d') = Emitted errMessage /\
    Encrypt.sourceExchange errMessage = fields_exchange d /\
    Encrypt.sourceRoutingKey errMessage = fields_routingKey d /\
    Encrypt.errType errMessage = constructor_name err /\
    Encrypt.errMessage errMessage = message_of err /\
    Encrypt.sourceData errMessage = Encrypt.sourceData m /\
    Encrypt.data errMessage = Encrypt.sourceData m /\
    Encrypt.exchange errMessage = fields_exchange d' /\
    Encrypt.routingKey errMessage = fields_routingKey d' /\
    Encrypt.ackMessage errMessage
    = perform (ch_ack listener' (fields_deliveryTag d')) /\
    call_and_run n (Encrypt.replyData JSON_stringify errMessage priority) w
    = (Resolved tt,
       emit (EPublish (fields_exchange d) (fields_routingKey d)
                      (JSON_stringify (Encrypt.sourceData m)) priority) w).
Proof.
  intros Hm record Hcodec Hbody.
  unfold Encrypt.onErrMessage. rewrite Hbody, Hcodec.
  eexists. split; [reflexivity|]. simpl.
  repeat (split; [reflexivity|]).
  unfold call_and_run, Encrypt.replyData, Encrypt.publish, async_of_sync. simpl.
  apply run_settled. reflexivity.
Qed.

(** X8. Errors of two types share the reserved topology.  After two
    [throwError] calls have run to completion, the exchange and the queue
    are those the first call declared, the [errors] queue is bound once
    for each type tag, the second call was not rejected for re-declaring,
    and its record went to the [error] exchange under its own tag. *)
Theorem error_types_are_bound_to_one_queue
        (JSON_parse : string -> Outcome json) (JSON_stringify : json -> string)
        (listener1 listener2 : Chan) (d1 d2 : Delivery)
        (m1 m2 : Encrypt.ConsumeMessage) (err1 err2 : Error) (w : World) (n : nat) :
  Encrypt.onMessage JSON_parse JSON_stringify listener1 (Some d1) = Emitted m1 ->
  Encrypt.onMessage JSON_parse JSON_stringify listener2 (Some d2) = Emitted m2 ->
  exchange_assertable "error" w ->
  queue_assertable "errors" w ->
  let w1 := (call_and_run 5 (Encrypt.throwError m1 err1) w).2 in
  let second := call_and_run (5 + n) (Encrypt.throwError m2 err2) w1 in
  second.1 = Resolved tt /\
  exchanges second.2 = exchanges w1 /\
  queues second.2 = queues w1 /\
  bindings second.2
  = {[ ("errors", "error", constructor_name err2) ]}
      ∪ ({[ ("errors", "error", constructor_name err1) ]} ∪ bindings w) /\
  trace second.2
  = (trace w1 ++ [EAssertExchange "error" "topic" true;
                  EAssertQueue "errors" true;
                  EBindQueue "errors" "error" (constructor_name err2);
                  EPublish "error" (constructor_name err2)
                    (JSON_stringify
                       (Encrypt.errData (fields_exchange d2) (fields_routingKey d2)
                                        (Encrypt.sourceData m2) err2))
                    None])%list.
Proof.
  intros Hm1 Hm2 Hx Hq w1 second.
  destruct (throwError_completes _ _ _ _ _ err1 w Hm1 Hx Hq) as [_ Hfirst].
  specialize (Hfirst 0). change (5 + 0) with 5 in Hfirst.
  assert (Hx1 : exchange_assertable "error" w1).
  { right. subst w1. rewrite Hfirst. simpl. apply lookup_insert_eq. }
  assert (Hq1 : queue_assertable "errors" w1).
  { right. subst w1. rewrite Hfirst. simpl. apply lookup_insert_eq. }
  destruct (throwError_completes _ _ _ _ _ err2 w1 Hm2 Hx1 Hq1) as [_ Hsecond].
  subst second. rewrite (Hsecond n). cbn [fst snd exchanges queues bindings trace].
  split; [reflexivity|].
  subst w1. rewrite Hfirst. cbn [snd exchanges queues bindings trace].
  split; [apply insert_insert_eq|]. split; [apply insert_insert_eq|].
  split; reflexivity.
Qed.

(** * Properties of token issuance *)

Section SignTokenProperties.
Context (sign : json -> string -> string)
        (verify : string -> string -> Outcome Jwt.JwtPayload)
        (JWT_SECRET : string)
        (JWT_REFRESH_TIME JWT_EXPIRES : Z).

Local Abbreviation signToken :=
  (Jwt.signToken sign verify JWT_SECRET JWT_REFRESH_TIME JWT_EXPIRES).

Lemma signToken_refresh_unfold userId roles permissions token c :
  token <> EmptyString ->
  signToken userId roles permissions (Some token) c
  = let now := (Jwt.readings c (Jwt.reads c) / 1000)%Z in
    let c2 := Jwt.mkClock (Jwt.readings c) (S (S (Jwt.reads c))) in
    match verify token JWT_SECRET with
    | Throw e => (Throw e, c2)
    | Ok payload =>
        if negb (bool_decide (Jwt.sub payload = Some userId)) then
          (Throw (Jwt.JwtError "Not the same user"), c2)
        else if negb (Jwt.truthy_number (Jwt.exp payload)) then
          (Throw (Jwt.JwtError "Wrong refresh token"), c2)
        else if (default 0%Z (Jwt.exp payload) <? now)%Z then
          (Throw (Jwt.JwtError "Refresh token be overdue"), c2)
        else
          (Ok (Jwt.mkTokens
                 (sign (Jwt.accessTokenPayload userId roles permissions
                          ((Jwt.readings c (S (Jwt.reads c)) + JWT_REFRESH_TIME) / 1000)%Z
                          now) JWT_SECRET)
                 token), c2)
    end.
Proof.
  intros Hne. destruct token as [|a token]; [congruence|]. reflexivity.
Qed.

(** X9. A refresh succeeds only for a live token of the same user, and
    hands the caller's token back.  Whenever [signToken] with a refresh
    token returns tokens, the refresh token returned is the one passed in,
    [verify] accepted it, its [sub] is the user, and its [exp] is present,
    not zero and not before the current second; conversely a token with
    these properties is always refreshed, with an access token for the
    user that expires [JWT_REFRESH_TIME] after the second clock reading. *)
Theorem refresh_only_for_a_live_token_of_the_user
        (userId roles permissions token : string) (c : Jwt.Clock) :
  token <> EmptyString ->
  let result := signToken userId roles permissions (Some token) c in
  let now := (Jwt.readings c (Jwt.reads c) / 1000)%Z in
  (forall tokens,
      result.1 = Ok tokens ->
      Jwt.refreshToken tokens = token /\
      exists payload e,
        verify token JWT_SECRET = Ok payload /\
        Jwt.sub payload = Some userId /\
        Jwt.exp payload = Some e /\ e <> 0%Z /\ (now <= e)%Z) /\
  (forall payload e,
      verify token JWT_SECRET = Ok payload ->
      Jwt.sub payload = Some userId ->
      Jwt.exp payload = Some e -> e <> 0%Z -> (now <= e)%Z ->
      result.1
      = Ok (Jwt.mkTokens
              (sign (Jwt.accessTokenPayload userId roles permissions
                       ((Jwt.readings c (S (Jwt.reads c)) + JWT_REFRESH_TIME) / 1000)%Z
                       now) JWT_SECRET)
              token)).
Proof.
  intros Hne result now. subst result.
  rewrite (signToken_refresh_unfold _ _ _ _ _ Hne). cbv zeta. fold now. split.
  - intros tokens Hok.
    destruct (verify token JWT_SECRET) as [payload|e0]; [|discriminate].
    destruct (bool_decide (Jwt.sub payload = Some userId)) eqn:Hsub;
      [|discriminate].
    apply bool_decide_eq_true in Hsub. simpl in Hok.
    destruct (Jwt.exp payload) as [e|] eqn:Hexp; [|discriminate].
    simpl in Hok. destruct (e =? 0)%Z eqn:He0; [discriminate|]. simpl in Hok.
    destruct (e <? now)%Z eqn:Hlt; [discriminate|].
    simpl in Hok. injection Hok as <-. simpl. split; [reflexivity|].
    exists payload, e. repeat split; try assumption; try reflexivity.
    + apply Z.eqb_neq. exact He0.
    + apply Z.ltb_ge. exact Hlt.
  - intros payload e Hv Hsub Hexp He0 Hle. rewrite Hv.
    rewrite (bool_decide_eq_true_2 _ Hsub). simpl. rewrite Hexp. simpl.
    rewrite (proj2 (Z.eqb_neq e 0) He0). simpl.
    rewrite (proj2 (Z.ltb_ge e now) Hle). reflexivity.
Qed.



(** X12. Fresh tokens are ordered in time.  Without a refresh token, and
    equally with the empty string as refresh token, [signToken] signs two
    payloads with the same [iat] (the second of the first clock reading)
    and [verify] plays no part; when the clock does not run backwards and
    [0 <= JWT_REFRESH_TIME <= JWT_EXPIRES], the access token does not
    expire before it is issued and the refresh token does not expire
    before the access token. *)
Theorem fresh_tokens_are_ordered_in_time
        (userId roles permissions : string) (refreshToken : option string)
        (c : Jwt.Clock) :
  refreshToken = None \/ refreshToken = Some EmptyString ->
  (Jwt.readings c (Jwt.reads c) <= Jwt.readings c (S (Jwt.reads c)))%Z ->
  (Jwt.readings c (S (Jwt.reads c)) <= Jwt.readings c (S (S (Jwt.reads c))))%Z ->
  (0 <= JWT_REFRESH_TIME <= JWT_EXPIRES)%Z ->
  let iat := (Jwt.readings c (Jwt.reads c) / 1000)%Z in
  let access_exp :=
    ((Jwt.readings c (S (Jwt.reads c)) + JWT_REFRESH_TIME) / 1000)%Z in
  let refresh_exp :=
    ((Jwt.readings c (S (S (Jwt.reads c))) + JWT_EXPIRES) / 1000)%Z in
  signToken userId roles permissions refreshToken c
  = (Ok (Jwt.mkTokens
           (sign (Jwt.accessTokenPayload userId roles permissions access_exp iat)
                 JWT_SECRET)
           (sign (Jwt.refreshTokenPayload userId refresh_exp iat) JWT_SECRET)),
     Jwt.mkClock (Jwt.readings c) (3 + Jwt.reads c)) /\
  (iat <= access_exp <= refresh_exp)%Z.
Proof.
  intros Hnone H01 H12 [H0 Hle] iat access_exp refresh_exp. split.
  - destruct Hnone as [-> | ->]; reflexivity.
  - subst iat access_exp refresh_exp. split; apply Z.div_le_mono; lia.
Qed.
End SignTokenProperties.

(** * Properties of the HTTP error handling *)

Section ServerProperties.
Context (JSON_stringify : json -> string)
        {Schema : Type}
        (Joi_attempt : Schema -> json -> Http.Thrown + json).

Local Abbreviation wrongParameter :=
  (Http.wrongParameterExceptionTransform JSON_stringify).
Local Abbreviation error_chain := (Http.error_chain JSON_stringify).
Local Abbreviation serve := (Http.serve JSON_stringify).

(** X13. With no options, every error that reaches the error middlewares
    is answered by exactly one status and one JSON body: 400 for a Joi
    validation error (with the serialized details), for a [JwtError] and
    for a [MulterError] (with their message); the exception's own code and
    message for an [HttpServerException]; 500 with the "ServerError"
    wrapping of the message for everything else. *)
Theorem default_error_chain_answers_once (error : Http.Thrown) (response : Http.Response) :
  let answer (code : Z) (msg : string) :=
    Http.respond [Http.Status code; Http.Send (JObj [("message", JStr msg)])] response in
  (error_chain None error response).1
  = match error with
    | Http.JoiValidationError details _ =>
        answer 400%Z ("ValidationError:" ++ JSON_stringify details)
    | Http.JwtError msg => answer 400%Z msg
    | Http.MulterError msg => answer 400%Z msg
    | Http.HttpException e =>
        answer (Http.getHttpResponseStatusCode e) (Http.exception_message e)
    | Http.OtherError msg =>
        answer 500%Z ("ServerError: " ++ msg
                      ++ ", please make contact with backend developer!")
    end.
Proof. destruct error; reflexivity. Qed.

(** X14. The caller's transform never sees a parameter error.  What the
    built-in transform middleware passes on is never a Joi validation
    error, a [JwtError] or a [MulterError]; an [HttpServerException] and
    any other error pass unchanged; and passing the result through the
    built-in transform again changes nothing. *)
Theorem builtin_transform_shields_the_callers_transform (error : Http.Thrown) :
  let seen := Http.exceptionTransformMiddleware (Some wrongParameter) error in
  match seen with
  | Http.JoiValidationError _ _ | Http.JwtError _ | Http.MulterError _ => False
  | _ => True
  end /\
  match error with
  | Http.HttpException _ | Http.OtherError _ => seen = error
  | _ => exists msg, seen = Http.HttpException (Http.WrongParameterException msg)
  end /\
  Http.exceptionTransformMiddleware (Some wrongParameter) seen = seen.
Proof. destruct error; simpl; eauto. Qed.

Lemma run_middlewares_error middleware rest request response request' response' error :
  middleware request response = (request', response', Some error) ->
  Http.run_middlewares (middleware :: rest) request response
  = (request', response', Some error).
Proof. intros H. simpl. rewrite H. reflexivity. Qed.

(** X15. Invalid input never reaches the rest of the route.  When the
    route starts with [validParam], [validQuery] or [validBody] and Joi
    rejects the corresponding part of the request with a validation
    error, the request is answered 400 with the serialized details,
    whatever middlewares follow in the route and whatever [request.data]
    held before. *)
Theorem invalid_input_is_answered_400
        (schema : Schema) (rest : list Http.Middleware)
        (request : Http.Request) (response : Http.Response)
        (details : json) (msg : string) :
  let answer :=
    Http.respond [Http.Status 400;
                  Http.Send (JObj [("message",
                                    JStr ("ValidationError:" ++ JSON_stringify details))])]
                 response in
  (Joi_attempt schema (Http.params request) = inl (Http.JoiValidationError details msg) ->
   serve None (Http.validParam Joi_attempt schema :: rest) request response = answer) /\
  (Joi_attempt schema (Http.query request) = inl (Http.JoiValidationError details msg) ->
   serve None (Http.validQuery Joi_attempt schema :: rest) request response = answer) /\
  (Joi_attempt schema (Http.body request) = inl (Http.JoiValidationError details msg) ->
   serve None (Http.validBody Joi_attempt schema :: rest) request response = answer).
Proof.
  intros answer. repeat split; intros H; unfold Http.serve;
    cbn [Http.run_middlewares Http.dataInitializer];
    unfold Http.validParam, Http.validQuery, Http.validBody, Http.asyncMiddleware;
    cbn [Http.params Http.query Http.body]; rewrite H; reflexivity.
Qed.

(** X16. A route that validates parameters, query and body hands the next
    middleware a request whose [data] holds exactly the three validated
    values, whatever [data] held before, with the raw parameters, query
    and body as they came, no error, and the response untouched. *)
Theorem validated_request_carries_the_three_values
        (schemaP schemaQ schemaB : Schema)
        (request : Http.Request) (response : Http.Response) (p q b : json) :
  Joi_attempt schemaP (Http.params request) = inr p ->
  Joi_attempt schemaQ (Http.query request) = inr q ->
  Joi_attempt schemaB (Http.body request) = inr b ->
  Http.run_middlewares
    [Http.dataInitializer;
     Http.validParam Joi_attempt schemaP;
     Http.validQuery Joi_attempt schemaQ;
     Http.validBody Joi_attempt schemaB]
    request response
  = (Http.mkRequest (Http.params request) (Http.query request) (Http.body request)
                    (Http.mkRequestData (Some p) (Some q) (Some b)),
     response, None).
Proof.
  intros Hp Hq Hb. destruct request as [ps qs bs ds]. simpl in Hp, Hq, Hb.
  unfold Http.run_middlewares, Http.dataInitializer,
    Http.validParam, Http.validQuery, Http.validBody, Http.asyncMiddleware.
  simpl. rewrite Hp. simpl. rewrite Hq. simpl. rewrite Hb. reflexivity.
Qed.

Lemma prefix_not_slash (c : ascii) (rest url : string) :
  c <> "/"%char -> String.prefix (String c rest) (String "/" url) = false.
Proof.
  intros Hc. simpl. destruct (Ascii.ascii_dec c "/") as [->|_]; [congruence|reflexivity].
Qed.

(** X17. In [startWebsite], an error is answered as JSON exactly when the
    URL starts with the API prefix.  For a prefix that starts with one
    slash and a URL that starts with a slash, the second test of
    [isApiRequest] adds nothing, so the handler answers as
    [defaultExceptionHandler] when the prefix is a prefix of the URL, and
    otherwise renders the view named by the decimal status code (the
    exception's own code, or 500), sending no JSON; without a prefix, or
    with the empty prefix, every error is rendered. *)
Theorem website_errors_are_json_exactly_under_the_prefix
        (c : ascii) (prefix url : string) (error : Http.Thrown)
        (shown : list Http.ResponseAction) :
  c <> "/"%char ->
  let apiPrefix := String "/" (String c prefix) in
  let response := Http.mkResponse (String "/" url) shown in
  let code := match error with
              | Http.HttpException e => Http.getHttpResponseStatusCode e
              | _ => 500%Z
              end in
  let rendered := Http.respond [Http.Status code; Http.Render (Http.toString code)]
                               response in
  Http.websiteExceptionHandler (Some apiPrefix) error response
  = (if String.prefix apiPrefix (String "/" url)
     then Http.defaultExceptionHandler error response
     else rendered) /\
  Http.websiteExceptionHandler None error response = rendered /\
  Http.websiteExceptionHandler (Some EmptyString) error response = rendered.
Proof.
  intros Hc apiPrefix response code rendered.
  assert (Hview : forall r, match error with
                            | Http.HttpException e =>
                                Http.respond [Http.Status (Http.getHttpResponseStatusCode e);
                                              Http.Render (Http.toString
                                                (Http.getHttpResponseStatusCode e))] r
                            | _ => Http.respond [Http.Status 500; Http.Render "500"] r
                            end
                            = Http.respond [Http.Status code;
                                            Http.Render (Http.toString code)] r).
  { intros r. subst code. destruct error; reflexivity. }
  split; [|split].
  - unfold Http.websiteExceptionHandler, Http.isApiRequest.
    subst apiPrefix response. cbn [Http.originalUrl Http.remove_first_slash].
    change (Ascii.eqb "/" "/") with true. cbv iota.
    rewrite (prefix_not_slash c prefix url Hc), orb_false_r.
    destruct (String.prefix _ _); [reflexivity|apply Hview].
  - unfold Http.websiteExceptionHandler. apply Hview.
  - unfold Http.websiteExceptionHandler. apply Hview.
Qed.
End ServerProperties.

(** * Properties of the environment schema *)

Lemma filter_all_true {A} (P : A -> bool) (l : list A) :
  (forall x, In x l -> P x = true) -> List.filter P l = l.
Proof.
  induction l as [|x l IH]; intros H; [reflexivity|]. simpl.
  rewrite (H x (or_introl eq_refl)). f_equal. apply IH. intros y Hy. apply H. right; exact Hy.
Qed.

Lemma filter_filter_andb {A} (P Q : A -> bool) (l : list A) :
  List.filter P (List.filter Q l) = List.filter (fun x => Q x && P x) l.
Proof.
  induction l as [|x l IH]; [reflexivity|]. simpl.
  destruct (Q x); simpl; [destruct (P x)|]; rewrite ?IH; reflexivity.
Qed.

Lemma NoDup_keys_filter {V} (P : string * V -> bool) (m : list (string * V)) :
  NoDup (List.map fst m) -> NoDup (List.map fst (List.filter P m)).
Proof.
  induction m as [|[k v] m IH]; intros H; [constructor|].
  inversion H as [|? ? Hk Hm]; subst. simpl. destruct (P (k, v)); [|apply IH; exact Hm].
  simpl. constructor; [|apply IH; exact Hm].
  intros Hin. apply Hk. apply list_elem_of_In in Hin. apply list_elem_of_In.
  apply in_map_iff in Hin as ([k' v'] & Heq & Hin). simpl in Heq; subst.
  apply filter_In in Hin as [Hin _]. apply in_map_iff. exists (k, v'). auto.
Qed.

Lemma Map_delete_filter (k : string) (m : list (string * Env.Group)) :
  NoDup (List.map fst m) ->
  Env.Map_delete k m = List.filter (fun ng => negb (String.eqb k ng.1)) m.
Proof.
  induction m as [|[k' v'] m IH]; intros H; [reflexivity|].
  inversion H as [|? ? Hk Hm]; subst. simpl.
  destruct (String.eqb k k') eqn:E; simpl.
  - apply String.eqb_eq in E; subst k'. symmetry. apply filter_all_true.
    intros [k2 v2] Hin. simpl. destruct (String.eqb k k2) eqn:E2; [|reflexivity].
    apply String.eqb_eq in E2; subst k2. exfalso. apply Hk.
    apply list_elem_of_In. apply in_map_iff. exists (k, v2). auto.
  - f_equal. apply IH. exact Hm.
Qed.

Lemma schemas_are_the_kept_groups (excludes : string) :
  Env.schemas excludes
  = List.filter (fun ng => negb (excluded excludes ng.1)) schema_groups.
Proof.
  unfold Env.schemas, excluded.
  change Env.schemas_set with schema_groups.
  assert (Hnd : NoDup (List.map fst schema_groups))
    by (refine (bool_decide_unpack _ _); vm_compute; reflexivity).
  generalize (Env.split excludes) as l. generalize dependent schema_groups.
  intros m Hnd l. revert m Hnd. induction l as [|s l IH]; intros m Hnd.
  - simpl. symmetry. apply filter_all_true. reflexivity.
  - simpl. rewrite IH.
    + rewrite (Map_delete_filter s m Hnd), filter_filter_andb.
      apply filter_ext. intros [k v]. simpl.
      rewrite (String.eqb_sym k s). destruct (String.eqb s k); reflexivity.
    + rewrite (Map_delete_filter s m Hnd). apply NoDup_keys_filter. exact Hnd.
Qed.

Lemma set_field_fresh (k : string) (v : Env.FieldSchema) (o : Env.Group) :
  ~ In k (List.map fst o) -> Env.set_field k v o = (o ++ [(k, v)])%list.
Proof.
  induction o as [|[k' v'] o IH]; intros H; [reflexivity|]. simpl.
  destruct (String.eqb k k') eqn:E.
  - apply String.eqb_eq in E; subst. exfalso. apply H. left; reflexivity.
  - f_equal. apply IH. intros Hin. apply H. right; exact Hin.
Qed.

Lemma spread_fresh (curr prev : Env.Group) :
  NoDup (List.map fst (prev ++ curr)) -> Env.spread prev curr = (prev ++ curr)%list.
Proof.
  unfold Env.spread. revert prev. induction curr as [|[k v] curr IH]; intros prev H.
  - simpl. rewrite app_nil_r. reflexivity.
  - simpl. rewrite set_field_fresh.
    + rewrite IH; rewrite <- app_assoc; [reflexivity|exact H].
    + rewrite List.map_app in H. apply NoDup_app in H as (_ & Hdis & _).
      intros Hin. apply (Hdis k); [apply list_elem_of_In; exact Hin|].
      simpl. left.
Qed.

Lemma merge_fresh (gs : list Env.Group) (acc : Env.Group) :
  NoDup (List.map fst (acc ++ concat gs)) ->
  fold_left Env.spread gs acc = (acc ++ concat gs)%list.
Proof.
  revert acc. induction gs as [|g gs IH]; intros acc H.
  - simpl. rewrite app_nil_r. reflexivity.
  - simpl in *. rewrite app_assoc in H. rewrite spread_fresh.
    + rewrite IH; [rewrite <- app_assoc; reflexivity|exact H].
    + rewrite List.map_app in H. apply NoDup_app in H as (H & _ & _). exact H.
Qed.

Lemma NoDup_keys_kept (P : string * Env.Group -> bool) (m : list (string * Env.Group)) :
  NoDup (List.map fst (concat (List.map snd m))) ->
  NoDup (List.map fst (concat (List.map snd (List.filter P m)))).
Proof.
  induction m as [|[n g] m IH]; intros H; [constructor|]. simpl in *.
  rewrite List.map_app in H. apply NoDup_app in H as (Hg & Hdis & Hm).
  destruct (P (n, g)); [|apply IH; exact Hm]. simpl.
  rewrite List.map_app. apply NoDup_app. split; [exact Hg|]. split; [|apply IH; exact Hm].
  intros k Hk Hin. apply (Hdis k Hk).
  apply list_elem_of_In in Hin. apply list_elem_of_In.
  apply in_map_iff in Hin as ([k' v] & Heq & Hin). simpl in Heq; subst.
  apply in_map_iff. exists (k, v). split; [reflexivity|].
  apply in_concat in Hin as (g' & Hg' & Hin). apply in_concat. exists g'. split; [|exact Hin].
  apply in_map_iff in Hg' as ([n' g''] & Heq & Hg'). simpl in Heq; subst.
  apply filter_In in Hg' as [Hg' _]. apply in_map_iff. exists (n', g'). auto.
Qed.

(** X18. The merged schema is, in declaration order, exactly the fields
    of the groups whose names are not entries of the exclusion list: an
    excluded group loses all its fields and no other, entries that name no
    group change nothing, and names are compared as written (no trimming,
    no case folding). *)
Theorem schema_is_the_fields_of_the_kept_groups (NODE_SCHEMA_EXCLUDES : string) :
  Env.schema NODE_SCHEMA_EXCLUDES
  = concat (List.map snd
      (List.filter (fun ng => negb (excluded NODE_SCHEMA_EXCLUDES ng.1)) schema_groups)).
Proof.
  unfold Env.schema. rewrite schemas_are_the_kept_groups.
  rewrite merge_fresh; [reflexivity|]. rewrite app_nil_l.
  apply NoDup_keys_kept. refine (bool_decide_unpack _ _). vm_compute. reflexivity.
Qed.

(** X19. An exclusion list none of whose entries is the name of a group,
    the empty list in particular, gives the schema that [env.ts] builds
    from its seven spreads: same fields, same order, same field
    schemas. *)
Theorem no_exclusion_gives_the_static_schema (NODE_SCHEMA_EXCLUDES : string) :
  (forall name, In name (Env.split NODE_SCHEMA_EXCLUDES) ->
                ~ In name (List.map fst schema_groups)) ->
  Env.schema NODE_SCHEMA_EXCLUDES = Env.static_schema.
Proof.
  intros H. rewrite schema_is_the_fields_of_the_kept_groups.
  rewrite filter_all_true; [reflexivity|].
  intros [n g] Hin. simpl. unfold excluded.
  destruct (existsb (String.eqb n) (Env.split NODE_SCHEMA_EXCLUDES)) eqn:E; [|reflexivity].
  apply existsb_exists in E as (s & Hs & Heq). apply String.eqb_eq in Heq; subst s.
  exfalso. apply (H n Hs). apply in_map_iff. exists (n, g). auto.
Qed.

(** * Properties of transactions *)

Section SafeTransactionProperties.
Context (transaction_outcome commit_outcome rollback_outcome : Database.Db -> Outcome unit).

Local Abbreviation safeTransaction :=
  (Database.safeTransaction transaction_outcome commit_outcome rollback_outcome).


(** X21. Every opened transaction is ended, and a failed handler is never
    committed.  After the transaction opened, what [safeTransaction] asks
    of knex after the handler is one commit when the handler's promise was
    fulfilled, followed by a rollback if that commit was rejected, and one
    rollback and no commit when the handler's promise was rejected. *)
Theorem safeTransaction_ends_the_transaction
        (handler : Database.TransactionHandler) (db : Database.Db) :
  transaction_outcome db = Ok tt ->
  let handled := handler (db ++ [Database.TxBegin])%list in
  (safeTransaction handler db).2
  = (handled.2 ++
     match handled.1 with
     | Ok _ =>
         match commit_outcome handled.2 with
         | Ok _ => [Database.TxCommit]
         | Throw _ => [Database.TxCommit; Database.TxRollback]
         end
     | Throw _ => [Database.TxRollback]
     end)%list.
Proof.
  intros Ht handled. subst handled.
  unfold Database.safeTransaction, Database.rollback_and_swallow,
    Database.database_transaction, Database.transaction_commit,
    Database.transaction_rollback.
  rewrite Ht.
  destruct (handler (db ++ [Database.TxBegin])%list) as [[[]|he] db2]; simpl.
  - destruct (commit_outcome db2) as [[]|ce]; [reflexivity|].
    destruct (rollback_outcome _) as [[]|re]; simpl; rewrite <- app_assoc; reflexivity.
  - destruct (rollback_outcome db2) as [[]|re]; reflexivity.
Qed.
End SafeTransactionProperties.

(** * Concrete runs of the further properties *)

Lemma passing_envelope_is_untouched_witness :
  pipe [Events.filterOrAck is_one;
        Events.attemptMessageData Sample.Joi_attempt order_schema ignore_error]
       order_envelope initial_runtime
  = (Ok (Some order_envelope), initial_runtime) /\
  pipe [Encrypt.filterOrAck is_one; Encrypt.assertData Sample.Joi_attempt order_schema]
       order_message initial_runtime
  = (Ok (Some order_message), initial_runtime) /\
  Events.sourceData order_envelope = order_payload /\
  Encrypt.throwError order_message = Encrypt.throwError order_message.
Proof.
  assert (Hops : Forall (Events_operator Sample.Joi_attempt)
                        [Events.filterOrAck is_one;
                         Events.attemptMessageData Sample.Joi_attempt order_schema
                                                   ignore_error])
    by (repeat constructor).
  assert (Hops' : Forall (Encrypt_stage Sample.Joi_attempt)
                         [Encrypt.filterOrAck is_one;
                          Encrypt.assertData Sample.Joi_attempt order_schema])
    by (repeat constructor).
  destruct (passing_envelope_is_untouched Sample.Joi_attempt _ _
              order_envelope order_envelope order_message order_message
              initial_runtime initial_runtime initial_runtime
              Hops Hops' eq_refl eq_refl)
    as ((_ & _ & _ & _ & Hs & _) & (_ & _ & _ & _ & _ & Ht)).
  split; [reflexivity|]. split; [reflexivity|]. split; [exact Hs|exact Ht].
Defined.

Lemma connect_awaits_onConnected_witness :
  exists w1,
    completes (Events.connect (Events.assertQueue "orders" "created" "orders.created"))
              initial_world 5 (Resolved 0) w1 /\
    queues w1 !! "orders.created" = Some true /\
    trace w1 = [ECreateChannel 0;
                EAssertExchange "orders" "topic" true;
                EAssertQueue "orders.created" true;
                EBindQueue "orders.created" "orders" "created"].
Proof.
  set (opened := set_next_chan 1 (emit (ECreateChannel 0) initial_world)).
  assert (Hx : exchange_assertable "orders" opened) by (left; reflexivity).
  assert (Hq : queue_assertable "orders.created" opened) by (left; reflexivity).
  pose proof (Events_assertQueue_completes "orders" "created" "orders.created" opened)
    as Hc.
  rewrite (assertQueue_methods_ok _ _ _ _ Hx Hq) in Hc. cbn [of_outcome fst snd] in Hc.
  eexists. split.
  - exact (proj1 (connect_awaits_onConnected _ initial_world _ 3 (Resolved tt) Hc)).
  - split; [apply lookup_insert_eq|reflexivity].
Defined.

Lemma consume_subscribes_on_its_own_channel_witness :
  Events.consume "orders.created" None (mkRuntime orders_world [])
  = (Ok tt,
     mkRuntime (set_next_chan 2 (emit (ECreateChannel 1) orders_world))
               [(Events.consume_channel "orders.created" 200 orders_world).1]) /\
  trace (run 3 (Events.consume_channel "orders.created" 200 orders_world).1
             (set_next_chan 2 (emit (ECreateChannel 1) orders_world))).2
  = [ECreateChannel 1; EPrefetch 1 200; EConsume 1 "orders.created"].
Proof.
  assert (Hq : is_Some (queues (world (mkRuntime orders_world [])) !! "orders.created"))
    by (eexists; apply lookup_singleton_eq).
  destruct (consume_subscribes_on_its_own_channel "orders.created" None
              (mkRuntime orders_world []) 0 Hq) as (H1 & _ & H3).
  split; [exact H1|].
  exact (f_equal (fun r : Async unit * World => trace r.2) H3).
Defined.

Lemma two_subscriptions_use_two_channels_witness :
  trace (world (event_loop 3
    ((Events.consume "orders.created" (Some 10%Z) ;; Events.consume "orders.created" None)
       (mkRuntime orders_world [])).2))
  = [ECreateChannel 1; ECreateChannel 2;
     EPrefetch 1 10; EPrefetch 2 200;
     EConsume 1 "orders.created"; EConsume 2 "orders.created"].
Proof.
  assert (Hq : is_Some (queues orders_world !! "orders.created"))
    by (eexists; apply lookup_singleton_eq).
  destruct (two_subscriptions_use_two_channels "orders.created" "orders.created"
              (Some 10%Z) None orders_world Hq Hq) as [_ H].
  rewrite H. reflexivity.
Defined.

Lemma consumeErrors_subscribes_only_once_the_queue_exists_witness :
  exists m,
    Encrypt.onMessage Sample.JSON_parse Sample.JSON_stringify 1 (Some bad_delivery)
    = Emitted m /\
    (Encrypt.consumeErrors None (mkRuntime initial_world [])).1 = Ok tt /\
    (call_and_run 3 (Encrypt.consumeErrors_channel 200) initial_world).1
    = Rejected (NOT_FOUND "errors") /\
    (call_and_run 3 (Encrypt.consumeErrors_channel 200)
       (call_and_run 5
          (Encrypt.throwError m (Sample.ValidationError "id must be a number"))
          initial_world).2).1
    = Resolved tt.
Proof.
  eexists. split; [emitted_by (proj1 bad_delivery_fails_schema)|].
  match goal with
  | |- _ /\ _ /\ (call_and_run 3 _ (call_and_run 5 (Encrypt.throwError ?m ?err) _).2).1 = _ =>
      exact (consumeErrors_subscribes_only_once_the_queue_exists
               Sample.JSON_parse Sample.JSON_stringify 1 bad_delivery m err None
               initial_world 0 eq_refl (or_introl eq_refl) eq_refl)
  end.
Defined.

Lemma error_record_round_trip_witness :
  exists m errMessage,
    Encrypt.onMessage Sample.JSON_parse Sample.JSON_stringify 1 (Some bad_delivery)
    = Emitted m /\
    Encrypt.onErrMessage Sample.JSON_parse 2 (Some error_delivery) = Emitted errMessage /\
    Encrypt.sourceExchange errMessage = "orders" /\
    Encrypt.sourceRoutingKey errMessage = "created" /\
    Encrypt.errType errMessage = "ValidationError" /\
    call_and_run 0 (Encrypt.replyData Sample.JSON_stringify errMessage (Some 5%Z))
                 initial_world
    = (Resolved tt,
       emit (EPublish "orders" "created" (Sample.JSON_stringify bad_payload) (Some 5%Z))
            initial_world).
Proof.
  assert (Hm : exists m,
             Encrypt.onMessage Sample.JSON_parse Sample.JSON_stringify 1 (Some bad_delivery)
             = Emitted m /\ Encrypt.sourceData m = bad_payload).
  { eexists. split; [emitted_by (proj1 bad_delivery_fails_schema)|reflexivity]. }
  destruct Hm as (m & Hm & Hsd).
  assert (Hcodec : Sample.JSON_parse (Sample.JSON_stringify bad_record) = Ok bad_record)
    by (vm_compute; reflexivity).
  destruct (error_record_round_trip Sample.JSON_parse Sample.JSON_stringify 1 2
              bad_delivery error_delivery m
              (Sample.ValidationError "id is not of the required type")
              (Some 5%Z) initial_world 0 Hm)
    as (em & Hem & Hsx & Hsrk & Hty & _ & _ & _ & _ & _ & _ & Hreply).
  - rewrite Hsd. exact Hcodec.
  - rewrite Hsd. reflexivity.
  - exists m, em. split; [exact Hm|]. split; [exact Hem|].
    split; [exact Hsx|]. split; [exact Hsrk|]. split; [exact Hty|].
    rewrite Hsd in Hreply. exact Hreply.
Defined.

Lemma error_types_are_bound_to_one_queue_witness :
  exists m,
    Encrypt.onMessage Sample.JSON_parse Sample.JSON_stringify 1 (Some bad_delivery)
    = Emitted m /\
    let w1 := (call_and_run 5
                 (Encrypt.throwError m (Sample.ValidationError "id must be a number"))
                 initial_world).2 in
    let second := call_and_run 5 (Encrypt.throwError m (mkError "TypeError" "no id")) w1 in
    second.1 = Resolved tt /\
    exchanges second.2 = exchanges w1 /\
    ("errors", "error", "ValidationError") ∈ bindings second.2 /\
    ("errors", "error", "TypeError") ∈ bindings second.2.
Proof.
  eexists. split; [emitted_by (proj1 bad_delivery_fails_schema)|].
  match goal with
  | |- let w1 := (call_and_run 5 (Encrypt.throwError ?m ?err1) _).2 in
       let second := call_and_run 5 (Encrypt.throwError _ ?err2) _ in _ =>
      destruct (error_types_are_bound_to_one_queue
                  Sample.JSON_parse Sample.JSON_stringify 1 1 bad_delivery bad_delivery
                  m m err1 err2 initial_world 0
                  eq_refl eq_refl (or_introl eq_refl) (or_introl eq_refl))
        as (H1 & H2 & _ & H4 & _)
  end.
  cbv zeta in *. change (5 + 0) with 5 in *.
  split; [exact H1|]. split; [exact H2|]. rewrite H4.
  split; [apply elem_of_union; right; apply elem_of_union; left|apply elem_of_union; left];
    apply elem_of_singleton; reflexivity.
Defined.

Lemma refresh_only_for_a_live_token_of_the_user_witness :
  (Jwt.signToken sample_sign sample_verify "secret" 3600000 172800000
                 "alice" "admin" "read" (Some "alice-refresh") sample_clock).1
  = Ok (Jwt.mkTokens
          (sample_sign (Jwt.accessTokenPayload "alice" "admin" "read" 5601 2000) "secret")
          "alice-refresh").
Proof.
  refine (proj2 (refresh_only_for_a_live_token_of_the_user
                   sample_sign sample_verify "secret" 3600000 172800000
                   "alice" "admin" "read" "alice-refresh" sample_clock _)
                (Jwt.mkJwtPayload (Some "alice") (Some 2000%Z) (Some 1000%Z)) 2000%Z
                eq_refl eq_refl eq_refl _ _).
  - discriminate.
  - discriminate.
  - vm_compute. discriminate.
Defined.



Lemma fresh_tokens_are_ordered_in_time_witness :
  Jwt.signToken sample_sign sample_verify "secret" 3600000 172800000
                "alice" "admin" "read" (Some EmptyString) sample_clock
  = (Ok (Jwt.mkTokens
           (sample_sign (Jwt.accessTokenPayload "alice" "admin" "read" 5601 2000) "secret")
           (sample_sign (Jwt.refreshTokenPayload "alice" 174801 2000) "secret")),
     Jwt.mkClock (Jwt.readings sample_clock) 3) /\
  (2000 <= 5601 <= 174801)%Z.
Proof.
  refine (fresh_tokens_are_ordered_in_time
            sample_sign sample_verify "secret" 3600000 172800000
            "alice" "admin" "read" (Some EmptyString) sample_clock
            (or_intror eq_refl) _ _ _); vm_compute; try split; discriminate.
Defined.

Lemma invalid_input_is_answered_400_witness :
  Http.serve Sample.JSON_stringify None
             [Http.validBody sample_validate order_schema;
              Http.validQuery sample_validate order_schema]
             sample_request sample_response
  = Http.respond
      [Http.Status 400;
       Http.Send (JObj [("message",
         JStr ("ValidationError:"
               ++ Sample.JSON_stringify
                    (JArr [JObj [("message",
                                  JStr (Sample.quote "id"
                                        ++ " is not of the required type"))]])))])]
      sample_response.
Proof.
  refine (proj2 (proj2 (invalid_input_is_answered_400
                   Sample.JSON_stringify sample_validate order_schema
                   [Http.validQuery sample_validate order_schema]
                   sample_request sample_response _ _)) _).
  vm_compute. reflexivity.
Defined.

Lemma validated_request_carries_the_three_values_witness :
  Http.run_middlewares
    [Http.dataInitializer;
     Http.validParam sample_validate order_schema;
     Http.validQuery sample_validate order_schema;
     Http.validBody sample_validate [("id", Sample.TString)]]
    sample_request sample_response
  = (Http.mkRequest (JObj []) (JObj []) bad_payload
                    (Http.mkRequestData (Some (JObj [])) (Some (JObj [])) (Some bad_payload)),
     sample_response, None).
Proof.
  refine (validated_request_carries_the_three_values
            sample_validate order_schema order_schema [("id", Sample.TString)]
            sample_request sample_response (JObj []) (JObj []) bad_payload _ _ _);
    vm_compute; reflexivity.
Defined.

Lemma website_errors_are_json_exactly_under_the_prefix_witness :
  Http.websiteExceptionHandler (Some "/api")
    (Http.HttpException (Http.NotFoundException "no such order"))
    (Http.mkResponse "/orders/7" [])
  = Http.mkResponse "/orders/7" [Http.Status 404; Http.Render "404"] /\
  Http.websiteExceptionHandler (Some "/api")
    (Http.HttpException (Http.NotFoundException "no such order"))
    (Http.mkResponse "/api/orders/7" [])
  = Http.mkResponse "/api/orders/7"
      [Http.Status 404; Http.Send (JObj [("message", JStr "no such order")])].
Proof.
  split.
  - refine (proj1 (website_errors_are_json_exactly_under_the_prefix
                     "a"%char "pi" "orders/7"
                     (Http.HttpException (Http.NotFoundException "no such order")) [] _)).
    discriminate.
  - refine (proj1 (website_errors_are_json_exactly_under_the_prefix
                     "a"%char "pi" "api/orders/7"
                     (Http.HttpException (Http.NotFoundException "no such order")) [] _)).
    discriminate.
Defined.

Lemma no_exclusion_gives_the_static_schema_witness :
  Env.schema "db ,MQ" = Env.static_schema /\
  List.map fst (Env.schema "db,mq")
  = ["NODE_ENV"; "NODE_TIMEZONE"; "LOGGER_LEVEL"; "LOGGER_WEBHOOK_URL";
     "SERVER_PORT"; "SERVER_JWT_FROM"; "JWT_SECRET"; "JWT_REFRESH_TIME"; "JWT_EXPIRES"].
Proof.
  split; [|vm_compute; reflexivity].
  apply no_exclusion_gives_the_static_schema.
  intros name Hin. vm_compute in Hin.
  destruct Hin as [<- | [<- | []]]; vm_compute;
    intros H; repeat (destruct H as [H|H]; [discriminate H|]); exact H.
Defined.

Lemma safeTransaction_ends_the_transaction_witness :
  (Database.safeTransaction (fun _ => Ok tt) (fun _ => Ok tt) (fun _ => Ok tt)
                            failing_handler []).2
  = [Database.TxBegin; Database.TxQuery "insert into orders"; Database.TxRollback] /\
  (Database.safeTransaction (fun _ => Ok tt) (fun _ => Ok tt) (fun _ => Ok tt)
                            failing_handler []).1
  = Ok tt.
Proof.
  split; [|reflexivity].
  exact (safeTransaction_ends_the_transaction
           (fun _ => Ok tt) (fun _ => Ok tt) (fun _ => Ok tt) failing_handler [] eq_refl).
Defined.
